(** * typescene: UIListController and UIMenu

    A shallow embedding of the list controller (reconciliation of a windowed
    view over a managed list, focus tracking, arrow key navigation) and of the
    menu (builder population, selection propagation), with the properties of
    the specification stated over it.

    JavaScript numbers that hold indices and counts are integers [Z];
    [undefined] is [None]; object identity ([===]) is equality of the
    [managedId] every managed object carries. *)

From Stdlib Require Import ZArith Lia.
From stdpp Require Import base option list gmap fin_maps strings pretty.

Local Open Scope Z_scope.

(** ** Exceptions *)

Inductive Result (A : Type) : Type :=
| Ok (value : A)
| Throw (message : string).
Arguments Ok {A} value.
Arguments Throw {A} message.

Global Instance Result_ret : MRet Result := λ A a, Ok a.

Global Instance Result_bind : MBind Result := λ A B k r,
  match r with
  | Ok a => k a
  | Throw m => Throw m
  end.

(** ** Managed objects and components *)

(** A domain object of the backing list: its identity is its [managedId]. *)
Record ManagedObject : Type := { managedId : nat }.

Global Instance ManagedObject_eq_dec : EqDecision ManagedObject.
Proof. solve_decision. Defined.

(** A component instance. [componentId] is the [managedId] of the instance
    (the name is kept apart from the domain objects' field);
    [adaptedObject] is the constructor argument of a view built by a list item
    adapter; [isUIComponent] is [instanceof UIComponent]; [hasRequestFocus] is
    [typeof c.requestFocus === "function"]; [getParentComponent] is the
    component-parent-chain lookup. *)
#[warnings="-register-all"]
Inductive Component : Type := MkComponent {
  componentId : nat;
  adaptedObject : option ManagedObject;
  isUIComponent : bool;
  hasRequestFocus : bool;
  getParentComponent : option Component
}.

(** [a === b] on component references. *)
Definition sameComponent (a b : Component) : bool :=
  Nat.eqb (componentId a) (componentId b).

(** ** ManagedList (core collaborator) *)

Module ManagedList.

(** The core class [ManagedList] is not part of the sources. Section 6 of
    the specification asks of the collection ordered iteration, a count,
    element-by-index access and a bounded "take N starting at position"
    operation, and of the list of a container [replace] and indexed lookup.
    A managed list is an ordered set: it holds an object at most once, which
    the properties below assume as [NoDup (managedId <$> l)]. *)
Section Ops.
Context {A : Type} (ident : A → nat).

(** Modelled from the spec: [count], the number of objects. *)
Definition count (l : list A) : Z := Z.of_nat (length l).

(** Modelled from the spec: [get(index)], element-by-index access; an index
    out of range raises. *)
Definition get (l : list A) (index : Z) : Result A :=
  if 0 <=? index then
    match l !! Z.to_nat index with
    | Some x => Ok x
    | None => Throw "[List] Index out of bounds"
    end
  else Throw "[List] Index out of bounds".

(** Modelled from the spec: the position of an object, found by identity. *)
Fixpoint position (x : A) (l : list A) : option nat :=
  match l with
  | [] => None
  | y :: l' =>
      if Nat.eqb (ident y) (ident x) then Some O
      else S <$> position x l'
  end.

(** Modelled from the spec: [indexOf(x)], -1 for an object not in the list. *)
Definition indexOf (l : list A) (x : A) : Z :=
  match position x l with
  | Some i => Z.of_nat i
  | None => -1
  end.

(** Modelled from the spec: [take(n, startingFrom)], at most [n] objects
    from the position of [startingFrom] on; an object not in the list
    raises. *)
Definition take (l : list A) (n : Z) (startingFrom : A) : Result (list A) :=
  match position startingFrom l with
  | Some i => Ok (firstn (Z.to_nat n) (skipn i l))
  | None => Throw "[List] Object not found"
  end.

(** Modelled from the spec: [replace(objects)] swaps the whole sequence. *)
Definition replace (l new : list A) : list A := new.

(** Modelled from the spec: [clear()] removes every object. *)
Definition clear (l : list A) : list A := [].
End Ops.

End ManagedList.

(** ** ManagedMap (core collaborator) *)

Module ManagedMap.

(** The core class [ManagedMap] is not part of the sources. The view-adapter
    map of section 3 of the specification maps an identity (as a string key)
    to a component and is changed by the list controller only. *)

(** Modelled from the spec: [toObject()], a snapshot of the bindings as a
    plain object. *)
Definition toObject (m : gmap string Component) : gmap string Component := m.

(** Modelled from the spec: [set(key, target)] binds the key. *)
Definition set (key : string) (target : Component)
    (m : gmap string Component) : gmap string Component :=
  <[key := target]> m.

(** Modelled from the spec: [remove(target)] unbinds the component wherever
    it is bound. *)
Definition remove (target : Component)
    (m : gmap string Component) : gmap string Component :=
  filter (λ kv, componentId kv.2 ≠ componentId target) m.

End ManagedMap.

(** ** UIListController *)

(** A container component with its list of children ([container.content]). *)
Record UIContainer : Type := {
  containerSelf : Component;
  containerContent : list Component
}.

(** [UIListItemAdapter]: a constructor of a renderable from one object. The
    class decides what kind of component it builds; the instance identity is
    allocated at construction. *)
Record UIListItemAdapter : Type := {
  adapterIsUIComponent : ManagedObject → bool;
  adapterHasRequestFocus : ManagedObject → bool
}.

(** [new Adapter(item)], the new instance taking identity [fresh]. *)
Definition newAdapter (Adapter : UIListItemAdapter) (item : ManagedObject)
    (fresh : nat) : Component :=
  {| componentId := fresh;
     adaptedObject := Some item;
     isUIComponent := adapterIsUIComponent Adapter item;
     hasRequestFocus := adapterHasRequestFocus Adapter item;
     getParentComponent := None |}.

(** The fields of a [UIListController]; [content] is inherited from
    [UIRenderableController]. *)
Record UIListController : Type := {
  content : option UIContainer;
  enableArrowKeyFocus : bool;
  items : option (list ManagedObject);
  firstIndex : Z;
  maxItems : option Z;
  lastFocusedIndex : Z
}.

(** Calls made on components by the focus handlers. *)
Inductive FocusCall : Type :=
| RequestFocus (target : Component)
| RequestFocusPrevious (target : Component)
| RequestFocusNext (target : Component).

(** The controller with its observer's [contentMap], the identity allocator,
    the global [window.__list] and the log of focus calls. *)
Record World : Type := {
  controller : UIListController;
  contentMap : gmap string Component;
  nextManagedId : nat;
  window___list : option UIContainer;
  focusCalls : list FocusCall
}.

Definition setController (w : World) (c : UIListController) : World :=
  {| controller := c;
     contentMap := contentMap w;
     nextManagedId := nextManagedId w;
     window___list := window___list w;
     focusCalls := focusCalls w |}.

Definition setContainerContent (c : UIListController) (container : UIContainer)
    (children : list Component) : UIListController :=
  {| content := Some {| containerSelf := containerSelf container;
                        containerContent := children |};
     enableArrowKeyFocus := enableArrowKeyFocus c;
     items := items c;
     firstIndex := firstIndex c;
     maxItems := maxItems c;
     lastFocusedIndex := lastFocusedIndex c |}.

Definition setLastFocusedIndex (c : UIListController) (index : Z)
    : UIListController :=
  {| content := content c;
     enableArrowKeyFocus := enableArrowKeyFocus c;
     items := items c;
     firstIndex := firstIndex c;
     maxItems := maxItems c;
     lastFocusedIndex := index |}.

(** *** Reconciliation: [onItemsChangeAsync] *)

(** [maxItems! >= 0], false when [maxItems] is undefined. *)
Definition maxItemsGe0 (maxItems : option Z) : bool :=
  match maxItems with
  | Some m => 0 <=? m
  | None => false
  end.

(** The [items] to show (lines 75-82): the entire list, or a part of it. *)
Definition visibleItems (c : UIListController) (list_ : list ManagedObject)
    : Result (list ManagedObject) :=
  let firstIndex_ := if negb (0 <=? firstIndex c) then 0 else firstIndex c in
  let maxItems_ := maxItems c in
  if (0 <? firstIndex_) || maxItemsGe0 maxItems_ then
    if (0 <? ManagedList.count list_)
       && (firstIndex_ <? ManagedList.count list_)
    then
      startingFrom ← ManagedList.get list_ (firstIndex c) ;
      ManagedList.take managedId list_
        (if maxItemsGe0 maxItems_ then default 0 maxItems_
         else ManagedList.count list_)
        startingFrom
    else Ok []
  else Ok list_.

(** The variables of the loop of lines 85-98. *)
Record Reconcile : Type := {
  map : gmap string Component;
  created : gmap string Component;
  components : list Component;
  nextId : nat
}.

(** The property key of an object: [String(item.managedId)]. *)
Definition keyOf (item : ManagedObject) : string := pretty (managedId item).

(** One iteration of [for (let item of items)]. *)
Definition reconcileItem (Adapter : UIListItemAdapter) (st : Reconcile)
    (item : ManagedObject) : Reconcile :=
  match created st !! keyOf item with
  | None =>
      let component := newAdapter Adapter item (nextId st) in
      {| map := ManagedMap.set (keyOf item) component (map st);
         created := created st;
         components := components st ++ [component];
         nextId := S (nextId st) |}
  | Some component =>
      {| map := map st;
         created := delete (keyOf item) (created st);
         components := components st ++ [component];
         nextId := nextId st |}
  end.

(** [for (let oldKey in created) map.remove(created[oldKey])]. *)
Definition removeOld (created m : gmap string Component)
    : gmap string Component :=
  map_fold (λ _ old acc, ManagedMap.remove old acc) m created.

Definition onItemsChangeAsync (ListItemAdapter : option UIListItemAdapter)
    (w : World) : Result World :=
  match content (controller w) with
  | None => Ok w
  | Some container =>
      match items (controller w), ListItemAdapter with
      | Some list_, Some Adapter =>
          items ← visibleItems (controller w) list_ ;
          let st := foldl (reconcileItem Adapter)
                      {| map := contentMap w;
                         created := ManagedMap.toObject (contentMap w);
                         components := [];
                         nextId := nextManagedId w |} items in
          Ok {| controller :=
                  setContainerContent (controller w) container
                    (ManagedList.replace (containerContent container)
                       (components st));
                contentMap := removeOld (created st) (map st);
                nextManagedId := nextId st;
                window___list := window___list w;
                focusCalls := focusCalls w |}
      | _, _ =>
          Ok (setController w
                (setContainerContent (controller w) container
                   (ManagedList.clear (containerContent container))))
      end
  end.

(** [onFirstIndexChange] and [onMaxItemsChange] call the same handler. *)
Definition onFirstIndexChange := onItemsChangeAsync.
Definition onMaxItemsChange := onItemsChangeAsync.

(** *** Focus tracking and arrow keys *)

(** A [UIComponentEvent]: its name and the component it originates from. *)
Record UIComponentEvent : Type := {
  name : string;
  source : Component
}.

(** [component === this.content], false while there is no content. *)
Definition isContent (c : UIListController) (component : Component) : bool :=
  match content c with
  | Some container => sameComponent component (containerSelf container)
  | None => false
  end.

(** The loop of [getIndexOfComponent] (lines 136-138): walk up while the
    parent of [component] is not the container; [None] is the [undefined]
    reached above the root. *)
Fixpoint walkToChild (container : UIContainer) (component : Component)
    : option Component :=
  match getParentComponent component with
  | Some parent =>
      if sameComponent parent (containerSelf container) then Some component
      else walkToChild container parent
  | None => None
  end.

Definition getIndexOfComponent (c : UIListController)
    (component : option Component) : Z :=
  match content c with
  | None => -1
  | Some container =>
      match component ≫= walkToChild container with
      | Some component' =>
          ManagedList.indexOf componentId (containerContent container)
            component'
      | None => -1
      end
  end.

Definition restoreFocus (w : World) : Result World :=
  match content (controller w) with
  | Some container =>
      if 0 <? ManagedList.count (containerContent container) then
        let index :=
          Z.min (ManagedList.count (containerContent container) - 1)
                (Z.max (lastFocusedIndex (controller w)) 0) in
        goFocus ← ManagedList.get (containerContent container) index ;
        let w1 := {| controller := controller w;
                     contentMap := contentMap w;
                     nextManagedId := nextManagedId w;
                     window___list := content (controller w);
                     focusCalls := focusCalls w |} in
        if hasRequestFocus goFocus then
          Ok {| controller := controller w1;
                contentMap := contentMap w1;
                nextManagedId := nextManagedId w1;
                window___list := window___list w1;
                focusCalls := focusCalls w1 ++ [RequestFocus goFocus] |}
        else Ok w1
      else Ok w
  | None => Ok w
  end.

Definition onFocusIn (w : World) (e : UIComponentEvent) : Result World :=
  if negb (isContent (controller w) (source e)) then
    Ok (setController w
          (setLastFocusedIndex (controller w)
             (Z.max 0 (getIndexOfComponent (controller w) (Some (source e))))))
  else restoreFocus w.

(** The loop of [_getListItemComponent] (lines 54-57), entered with a
    defined [source_]. *)
Fixpoint listItemLoop (c : UIListController) (source_ : Component)
    (target : option Component) : option Component :=
  if isContent c source_ then target
  else
    let target' := if isUIComponent source_ then Some source_ else target in
    match getParentComponent source_ with
    | Some parent => listItemLoop c parent target'
    | None => target'
    end.

Definition _getListItemComponent (c : UIListController)
    (source_ : option Component) : option Component :=
  match source_ with
  | Some s => listItemLoop c s None
  | None => None
  end.

Definition logFocusCall (w : World) (call : FocusCall) : World :=
  {| controller := controller w;
     contentMap := contentMap w;
     nextManagedId := nextManagedId w;
     window___list := window___list w;
     focusCalls := focusCalls w ++ [call] |}.

Definition onArrowUpKeyPress (w : World) (e : UIComponentEvent) : World :=
  if enableArrowKeyFocus (controller w) then
    match _getListItemComponent (controller w) (Some (source e)) with
    | Some target => logFocusCall w (RequestFocusPrevious target)
    | None => w
    end
  else w.

Definition onArrowDownKeyPress (w : World) (e : UIComponentEvent) : World :=
  if enableArrowKeyFocus (controller w) then
    match _getListItemComponent (controller w) (Some (source e)) with
    | Some target => logFocusCall w (RequestFocusNext target)
    | None => w
    end
  else w.

(** A new controller: the field initialisers of lines 117-130. *)
Definition newUIListController (container : option UIContainer)
    : UIListController :=
  {| content := container;
     enableArrowKeyFocus := true;
     items := Some [];
     firstIndex := 0;
     maxItems := None;
     lastFocusedIndex := 0 |}.

Definition newWorld (container : option UIContainer) (next : nat) : World :=
  {| controller := newUIListController container;
     contentMap := ∅;
     nextManagedId := next;
     window___list := None;
     focusCalls := [] |}.

(** The worlds a controller of a class preset with [ListItemAdapter] goes
    through: fields are assigned from outside, handlers run. *)
Inductive reachable (ListItemAdapter : option UIListItemAdapter)
    : World → Prop :=
| reach_new container next :
    reachable ListItemAdapter (newWorld container next)
| reach_assign w c :
    reachable ListItemAdapter w →
    reachable ListItemAdapter (setController w c)
| reach_itemsChange w w' :
    reachable ListItemAdapter w →
    onItemsChangeAsync ListItemAdapter w = Ok w' →
    reachable ListItemAdapter w'
| reach_focusIn w e w' :
    reachable ListItemAdapter w →
    onFocusIn w e = Ok w' →
    reachable ListItemAdapter w'
| reach_arrowUp w e :
    reachable ListItemAdapter w →
    reachable ListItemAdapter (onArrowUpKeyPress w e)
| reach_arrowDown w e :
    reachable ListItemAdapter w →
    reachable ListItemAdapter (onArrowDownKeyPress w e).


(** ** UIMenu *)

Module UIMenu.

Inductive Gravity : Type := start | stretch | end_.

(** An entry of [options]. *)
Record MenuOption : Type := { key : string; text : string }.

(** Modelled from the spec: the interface [UIMenuBuilder] comes from the
    theme module, which is not part of the sources; section 6 lists
    [clear()], [addOption(key, text)], [setGravity(value)] and [build()],
    the latter returning the constructor of a renderable menu. [B] is the
    state of the builder object, [M] the menu class it builds. The methods
    mutate the builder: they are functions on its state. *)
Class UIMenuBuilder (B M : Type) : Type := {
  clear : B → B;
  addOption : string → string → B → B;
  setGravity : Gravity → B → B;
  build : B → M
}.

(** What [render] does to its collaborators, in order. *)
Inductive Call (M : Type) : Type :=
| BuilderClear
| BuilderAddOption (key text : string)
| BuilderSetGravity (gravity : Gravity)
| PropagateComponentEvent (name : string)
| BuilderBuild
| New (Menu : M) (instance : nat)
| Render (instance : nat) (callback : nat).
Arguments BuilderClear {M}.
Arguments BuilderAddOption {M} key text.
Arguments BuilderSetGravity {M} gravity.
Arguments PropagateComponentEvent {M} name.
Arguments BuilderBuild {M}.
Arguments New {M} Menu instance.
Arguments Render {M} instance callback.

(** Events that bubble up from a child: [UIMenuItemSelectedEvent] extends
    [UIComponentEvent] with [key]; other events are not component events. *)
Inductive BubblingEvent : Type :=
| OtherEvent (name : string)
| ComponentEvent (e : UIComponentEvent)
| MenuItemSelectedEvent (e : UIComponentEvent) (key : string).

Definition instanceofUIComponentEvent (e : BubblingEvent) : bool :=
  match e with
  | OtherEvent _ => false
  | ComponentEvent _ | MenuItemSelectedEvent _ _ => true
  end.

(** [e instanceof UIMenuItemSelectedEvent], with the key when it holds. *)
Definition instanceofUIMenuItemSelectedEvent (e : BubblingEvent)
    : option string :=
  match e with
  | MenuItemSelectedEvent _ k => Some k
  | _ => None
  end.

Section Menu.
Context {B M : Type} `{!UIMenuBuilder B M}.

(** The fields of a [UIMenu]; [menu] is the last instance built, with
    its class and its identity. *)
Record UIMenu : Type := {
  builder : B;
  menu : option (M * nat);
  gravity : option Gravity;
  options : list MenuOption;
  selected : option string
}.

(** The constructor: [MenuBuilder] is [UITheme.current.MenuBuilder], the
    initial state of a new builder when the theme has one. *)
Definition newUIMenu (MenuBuilder : option B) : Result UIMenu :=
  match MenuBuilder with
  | None => Throw "[UIMenu] Menu builder not found"
  | Some b =>
      Ok {| builder := b;
            menu := None;
            gravity := None;
            options := [];
            selected := None |}
  end.

(** The filter given to [propagateChildEvents]: the menu afterwards and
    the event emitted on the menu, if any. *)
Definition childEventFilter (m : UIMenu) (e : BubblingEvent)
    : UIMenu * option BubblingEvent :=
  if instanceofUIComponentEvent e then
    match instanceofUIMenuItemSelectedEvent e with
    | Some k =>
        ({| builder := builder m;
            menu := menu m;
            gravity := gravity m;
            options := options m;
            selected := Some k |}, Some e)
    | None => (m, Some e)
    end
  else (m, None).

(** The loop of lines 99-101 on the builder and on the log. *)
Definition addOptions (opts : list MenuOption) (b : B)
    (log : list (Call M)) : B * list (Call M) :=
  foldl (λ acc option,
           (addOption (key option) (text option) acc.1,
            acc.2 ++ [BuilderAddOption (key option) (text option)]))
        (b, log) opts.

(** [render(callback)]. [onBuild] is what the handlers of the "Build"
    event do to the builder; [fresh] is the identity the new instance
    takes. The result is the menu afterwards and the calls made. *)
Definition render (onBuild : B → B) (fresh : nat) (m : UIMenu)
    (callback : nat) : UIMenu * list (Call M) :=
  let '(b1, log1) :=
    if negb (Nat.eqb (length (options m)) 0) then
      addOptions (options m) (clear (builder m)) [BuilderClear]
    else (builder m, []) in
  let '(b2, log2) :=
    match gravity m with
    | Some g => (setGravity g b1, log1 ++ [BuilderSetGravity g])
    | None => (b1, log1)
    end in
  let b3 := onBuild b2 in
  let Menu := build b3 in
  ({| builder := b3;
      menu := Some (Menu, fresh);
      gravity := gravity m;
      options := options m;
      selected := selected m |},
   log2 ++ [PropagateComponentEvent "Build"; BuilderBuild;
            New Menu fresh; Render fresh callback]).
End Menu.

Arguments UIMenu B M : clear implicits.

(** Modelled from the spec: a builder that keeps the options and the
    gravity it was given and builds a menu class showing them. *)
Record ListBuilder : Type := {
  builtOptions : list (string * string);
  builtGravity : option Gravity
}.

Global Instance ListBuilder_builder : UIMenuBuilder ListBuilder ListBuilder := {
  clear b := {| builtOptions := []; builtGravity := builtGravity b |};
  addOption k t b :=
    {| builtOptions := builtOptions b ++ [(k, t)];
       builtGravity := builtGravity b |};
  setGravity g b :=
    {| builtOptions := builtOptions b; builtGravity := Some g |};
  build b := b
}.

End UIMenu.


(** ** [restoreFocus] over JavaScript numbers *)

(** [lastFocusedIndex] is a JavaScript number. The definitions above take it
    as an integer; the one value of a number that no integer stands for in
    lines 148-150 is [NaN]. *)
Inductive JSNumber : Type :=
| Int (z : Z)
| NaN.

(** [Math.max] and [Math.min]: [NaN] as soon as an argument is [NaN]. *)
Definition Math_max (a b : JSNumber) : JSNumber :=
  match a, b with
  | Int x, Int y => Int (Z.max x y)
  | _, _ => NaN
  end.

Definition Math_min (a b : JSNumber) : JSNumber :=
  match a, b with
  | Int x, Int y => Int (Z.min x y)
  | _, _ => NaN
  end.

(** Modelled from the spec: [get(index)] of [ManagedList] at a number;
    [NaN] is the position of no element and raises as an index out of range
    does. *)
Definition getAtNumber {A : Type} (l : list A) (index : JSNumber) : Result A :=
  match index with
  | Int z => ManagedList.get l z
  | NaN => Throw "[List] Index out of bounds"
  end.

(** [restoreFocus] (lines 144-154) with [lastFocusedIndex] holding the
    number [n]. *)
Definition restoreFocusNumber (n : JSNumber) (w : World) : Result World :=
  match content (controller w) with
  | Some container =>
      if 0 <? ManagedList.count (containerContent container) then
        let index :=
          Math_min (Int (ManagedList.count (containerContent container) - 1))
                   (Math_max n (Int 0)) in
        goFocus ← getAtNumber (containerContent container) index ;
        let w1 := {| controller := controller w;
                     contentMap := contentMap w;
                     nextManagedId := nextManagedId w;
                     window___list := content (controller w);
                     focusCalls := focusCalls w |} in
        if hasRequestFocus goFocus then
          Ok {| controller := controller w1;
                contentMap := contentMap w1;
                nextManagedId := nextManagedId w1;
                window___list := window___list w1;
                focusCalls := focusCalls w1 ++ [RequestFocus goFocus] |}
        else Ok w1
      else Ok w
  | None => Ok w
  end.

(** * Specification vocabulary *)

(** The window of the specification: [l[firstIndex : firstIndex+maxItems]]
    clipped to the bounds of [l], the whole tail when [maxItems] is unset. *)
Definition windowSlice (l : list ManagedObject) (firstIndex : Z)
    (maxItems : option Z) : list ManagedObject :=
  let rest := drop (Z.to_nat firstIndex) l in
  match maxItems with
  | Some m => take (Z.to_nat m) rest
  | None => rest
  end.

(** The window the controller's fields describe; empty without a list. *)
Definition currentWindow (c : UIListController) : list ManagedObject :=
  match items c with
  | Some l => windowSlice l (firstIndex c) (maxItems c)
  | None => []
  end.

(** What the observer's map is expected to satisfy between two handlers:
    every binding is a view of the object of its key, identities were handed
    out by the allocator, and a component is bound under one key only. *)
Record wfMap (m : gmap string Component) (next : nat) : Prop := {
  wf_view : ∀ k c, m !! k = Some c →
            ∃ o, adaptedObject c = Some o ∧ k = keyOf o;
  wf_alloc : ∀ k c, m !! k = Some c → (componentId c < next)%nat;
  wf_inj : ∀ k1 k2 c1 c2, m !! k1 = Some c1 → m !! k2 = Some c2 →
           componentId c1 = componentId c2 → k1 = k2
}.

Definition wfWorld (w : World) : Prop :=
  wfMap (contentMap w) (nextManagedId w).

(** The invariant of the loop of lines 88-98: the map stays well formed and
    the scratch copy stays a part of it. *)
Record LoopInv (st : Reconcile) : Prop := {
  inv_wf : wfMap (map st) (nextId st);
  inv_sub : created st ⊆ map st
}.

(** What a pass over the items [its] establishes from the world [w]. *)
Record Reconciled (w w' : World) (container : UIContainer)
    (its : list ManagedObject) (cs : list Component) : Prop := {
  rec_controller :
    controller w' = setContainerContent (controller w) container cs;
  rec_frame :
    window___list w' = window___list w ∧ focusCalls w' = focusCalls w;
  rec_wf : wfWorld w';
  rec_children :
    Forall2 (λ item c, contentMap w' !! keyOf item = Some c) its cs;
  rec_dom : dom (contentMap w') = list_to_set (keyOf <$> its);
  rec_reuse : ∀ k c, k ∈ keyOf <$> its →
    contentMap w !! k = Some c → contentMap w' !! k = Some c;
  rec_gone : ∀ k c, k ∉ keyOf <$> its → contentMap w !! k = Some c →
    ∀ k' c', contentMap w' !! k' = Some c' → componentId c' ≠ componentId c
}.

(** The children of the rendered container, none without a container. *)
Definition renderedChildren (w : World) : list Component :=
  from_option containerContent [] (content (controller w)).

(** The rendered view of [item]: the child constructed from it. *)
Definition viewOf (w : World) (item : ManagedObject) : option Component :=
  head (filter (λ c, adaptedObject c = Some item) (renderedChildren w)).

(** An assignment to [items], [firstIndex] and [maxItems]. *)
Definition setWindow (c : UIListController) (items_ : option (list ManagedObject))
    (firstIndex_ : Z) (maxItems_ : option Z) : UIListController :=
  {| content := content c;
     enableArrowKeyFocus := enableArrowKeyFocus c;
     items := items_;
     firstIndex := firstIndex_;
     maxItems := maxItems_;
     lastFocusedIndex := lastFocusedIndex c |}.

(** The same component instance renders [item] in both worlds, and is its
    binding in both maps. *)
Definition sameInstance (w1 w2 : World) (item : ManagedObject) : Prop :=
  ∃ c, viewOf w1 item = Some c ∧ viewOf w2 item = Some c ∧
       contentMap w1 !! keyOf item = Some c ∧
       contentMap w2 !! keyOf item = Some c.

(** The keys of the map are exactly the identities of the visible window. *)
Definition keysAreWindow (w : World) : Prop :=
  dom (contentMap w) = list_to_set (keyOf <$> currentWindow (controller w)).

(** A component is bound under one key only, and is the view of the object
    of its key. *)
Definition oneViewPerIdentity (w : World) : Prop :=
  (∀ k1 k2 c1 c2, contentMap w !! k1 = Some c1 →
     contentMap w !! k2 = Some c2 →
     componentId c1 = componentId c2 → k1 = k2) ∧
  (∀ k c, contentMap w !! k = Some c →
     ∃ o, adaptedObject c = Some o ∧ k = keyOf o).

(** The component an object had in [w] is, when the object is not in the
    window of [w'], bound nowhere in the map of [w'] and no child of its
    container. *)
Definition departedAreGone (w w' : World) : Prop :=
  ∀ o c, contentMap w !! keyOf o = Some c →
    o ∉ currentWindow (controller w') →
    (∀ k' c', contentMap w' !! k' = Some c' →
       componentId c' ≠ componentId c) ∧
    (∀ c', c' ∈ renderedChildren w' → componentId c' ≠ componentId c).

(** [clamp(v, lo, hi)] of the specification. *)
Definition clamp (v lo hi : Z) : Z :=
  if v <? lo then lo else if hi <? v then hi else v.

(** A component followed by its parents up to the root. *)
Fixpoint ancestorsOrSelf (c : Component) : list Component :=
  c :: match getParentComponent c with
       | Some parent => ancestorsOrSelf parent
       | None => []
       end.

(** [c] is a direct child of the container: its parent is the container. *)
Definition isChildOf (container : UIContainer) (c : Component) : bool :=
  match getParentComponent c with
  | Some parent => sameComponent parent (containerSelf container)
  | None => false
  end.

(** [child] is the direct child of the container that contains or equals
    [source_]. *)
Definition containingChild (container : UIContainer) (source_ child : Component)
    : Prop :=
  child ∈ ancestorsOrSelf source_ ∧ isChildOf container child = true.

(** No component of the parent chain of [c] is its own ancestor. *)
Definition acyclic (c : Component) : Prop :=
  NoDup (componentId <$> ancestorsOrSelf c).

(** The source is no descendant of the container: no component of its
    parent chain is a direct child of the container. *)
Definition notDescendant (container : UIContainer) (source_ : Component)
    : Prop :=
  ∀ x, x ∈ ancestorsOrSelf source_ → isChildOf container x = false.

(** The components of a parent chain below the content of the controller. *)
Fixpoint belowContent (c : UIListController) (chain : list Component)
    : list Component :=
  match chain with
  | [] => []
  | x :: chain' => if isContent c x then [] else x :: belowContent c chain'
  end.

(** Induction along the parent chain. *)
Fixpoint Component_parent_ind (P : Component → Prop)
    (Hroot : ∀ c, getParentComponent c = None → P c)
    (Hstep : ∀ c parent, getParentComponent c = Some parent → P parent → P c)
    (c : Component) {struct c} : P c :=
  match c as c0 return P c0 with
  | MkComponent i a u f None => Hroot (MkComponent i a u f None) eq_refl
  | MkComponent i a u f (Some parent) =>
      Hstep (MkComponent i a u f (Some parent)) parent eq_refl
        (Component_parent_ind P Hroot Hstep parent)
  end.

(** *** Menus *)

Section MenuVocabulary.
Context {B M : Type} `{!UIMenu.UIMenuBuilder B M}.

(** The builder after [clear()] and one [addOption] per option, in order. *)
Definition populated (opts : list UIMenu.MenuOption) (b : B) : B :=
  foldl (λ b' o, UIMenu.addOption (UIMenu.key o) (UIMenu.text o) b')
        (UIMenu.clear b) opts.

(** The builder after [setGravity], called only when a gravity is set. *)
Definition withGravity (g : option UIMenu.Gravity) (b : B) : B :=
  match g with
  | Some g' => UIMenu.setGravity g' b
  | None => b
  end.

Definition addOptionCalls (opts : list UIMenu.MenuOption)
    : list (UIMenu.Call M) :=
  (λ o, UIMenu.BuilderAddOption (UIMenu.key o) (UIMenu.text o)) <$> opts.

Definition gravityCalls (g : option UIMenu.Gravity) : list (UIMenu.Call M) :=
  match g with
  | Some g' => [UIMenu.BuilderSetGravity g']
  | None => []
  end.

(** The calls that end every [render]: the "Build" event, [build()], the
    construction of the instance and its rendering. *)
Definition buildCalls (Menu : M) (fresh callback : nat)
    : list (UIMenu.Call M) :=
  [UIMenu.PropagateComponentEvent "Build"; UIMenu.BuilderBuild;
   UIMenu.New Menu fresh; UIMenu.Render fresh callback].

Definition isBuilderBuild (c : UIMenu.Call M) : bool :=
  match c with
  | UIMenu.BuilderBuild => true
  | _ => false
  end.

Definition isNew (c : UIMenu.Call M) : bool :=
  match c with
  | UIMenu.New _ _ => true
  | _ => false
  end.

(** The menu after a [render] that left the builder in state [b]. *)
Definition rendered (m : UIMenu.UIMenu B M) (b : B) (fresh : nat)
    : UIMenu.UIMenu B M :=
  {| UIMenu.builder := b;
     UIMenu.menu := Some (UIMenu.build b, fresh);
     UIMenu.gravity := UIMenu.gravity m;
     UIMenu.options := UIMenu.options m;
     UIMenu.selected := UIMenu.selected m |}.
End MenuVocabulary.

(** * Example worlds *)

Definition exampleAdapter : UIListItemAdapter :=
  {| adapterIsUIComponent := λ _, true;
     adapterHasRequestFocus := λ _, true |}.

Definition exampleContainer : UIContainer :=
  {| containerSelf := MkComponent 1000 None true true None;
     containerContent := [] |}.

Definition objA : ManagedObject := {| managedId := 1 |}.
Definition objB : ManagedObject := {| managedId := 2 |}.
Definition objC : ManagedObject := {| managedId := 3 |}.
Definition objD : ManagedObject := {| managedId := 4 |}.

(** A new controller whose fields were assigned the given window. *)
Definition exampleWorld (items_ : option (list ManagedObject)) (firstIndex_ : Z)
    (maxItems_ : option Z) : World :=
  setController (newWorld (Some exampleContainer) 1001)
    (setWindow (newUIListController (Some exampleContainer))
       items_ firstIndex_ maxItems_).

(** Scenario A: [A, B, C] with no window limits. *)
Definition scenarioA : World := exampleWorld (Some [objA; objB; objC]) 0 None.

(** Scenario B: [A, B, C, D] with [firstIndex = 1] and [maxItems = 2]. *)
Definition scenarioB : World :=
  exampleWorld (Some [objA; objB; objC; objD]) 1 (Some 2).

(** The world of a result, the given world when the handler raised. *)
Definition worldOf (w : World) (r : Result World) : World :=
  match r with
  | Ok w' => w'
  | Throw _ => w
  end.

(** Scenario A after its first pass. *)
Definition renderedA : World :=
  worldOf scenarioA (onItemsChangeAsync (Some exampleAdapter) scenarioA).

(** Then [items] is unset. *)
Definition unsetA : World :=
  setController renderedA (setWindow (controller renderedA) None 0 None).

(** Scenario C: then B is removed from the list. *)
Definition scenarioC : World :=
  setController renderedA
    (setWindow (controller renderedA) (Some [objA; objC]) 0 None).

Definition renderedC : World :=
  worldOf scenarioC (onItemsChangeAsync (Some exampleAdapter) scenarioC).

(** The pass that follows the unsetting of [items]. *)
Definition clearedA : World :=
  worldOf unsetA (onItemsChangeAsync (Some exampleAdapter) unsetA).

(** A component outside the container, with no parent. *)
Definition outsider : Component := MkComponent 2000 None true true None.

(** A label inside the second child of the rendered container of scenario
    A; its parent chain goes through the child to the container. *)
Definition secondChild : Component :=
  MkComponent 1002 (Some objB) true true (Some (containerSelf exampleContainer)).

Definition innerLabel : Component :=
  MkComponent 3000 None true false (Some secondChild).

(** Scenario D: a menu with the options One and Two, built once before. *)
Definition emptyBuilder : UIMenu.ListBuilder :=
  {| UIMenu.builtOptions := []; UIMenu.builtGravity := None |}.

Definition scenarioD : UIMenu.UIMenu UIMenu.ListBuilder UIMenu.ListBuilder :=
  {| UIMenu.builder := emptyBuilder;
     UIMenu.menu := Some (emptyBuilder, 41%nat);
     UIMenu.gravity := Some UIMenu.end_;
     UIMenu.options := [ {| UIMenu.key := "k1"; UIMenu.text := "One" |};
                         {| UIMenu.key := "k2"; UIMenu.text := "Two" |} ];
     UIMenu.selected := None |}.

(** A menu without options whose builder was given an option directly. *)
Definition builderOnlyMenu
    : UIMenu.UIMenu UIMenu.ListBuilder UIMenu.ListBuilder :=
  {| UIMenu.builder := {| UIMenu.builtOptions := [("k9", "Nine")];
                          UIMenu.builtGravity := None |};
     UIMenu.menu := None;
     UIMenu.gravity := Some UIMenu.start;
     UIMenu.options := [];
     UIMenu.selected := None |}.

(** * Vocabulary of the further properties *)

(** The window the code shows for any values of the fields: a [firstIndex]
    that is not [>= 0] counts as 0 (line 76), a [maxItems] that is not [>= 0]
    as unset (lines 78 and 80). *)
Definition effectiveWindow (l : list ManagedObject) (firstIndex : Z)
    (maxItems : option Z) : list ManagedObject :=
  windowSlice l (Z.max firstIndex 0)
    (if maxItemsGe0 maxItems then maxItems else None).

(** The objects of a list that have no binding in a map: the ones a pass
    constructs a view for. *)
Definition unbound (m : gmap string Component) (its : list ManagedObject)
    : list ManagedObject :=
  filter (λ item, m !! keyOf item = None) its.

(** Scenario A with a negative [firstIndex] and a negative [maxItems]. *)
Definition negativeWorld : World :=
  exampleWorld (Some [objA; objB; objC]) (-2) (Some (-1)).

(** The world after [restoreFocus] has found [child] in [container]. *)
Definition focusRestored (w : World) (container : UIContainer)
    (child : Component) : World :=
  {| controller := controller w;
     contentMap := contentMap w;
     nextManagedId := nextManagedId w;
     window___list := Some container;
     focusCalls := focusCalls w ++
                   (if hasRequestFocus child then [RequestFocus child]
                    else []) |}.

(** Scenario A rendered, with its children attached to the container (their
    parent is the container), as the focus handlers see them. *)
Definition attach (container : UIContainer) (c : Component) : Component :=
  MkComponent (componentId c) (adaptedObject c) (isUIComponent c)
    (hasRequestFocus c) (Some (containerSelf container)).

Definition attachedA : World :=
  setController renderedA
    (setContainerContent (controller renderedA) exampleContainer
       (attach exampleContainer <$> renderedChildren renderedA)).

(** The filter of the menu run over the events that bubble up from the
    child, one after the other: the menu afterwards and the events emitted
    on the menu, in order. *)
Definition bubble {B M : Type}
    (acc : UIMenu.UIMenu B M * list UIMenu.BubblingEvent)
    (e : UIMenu.BubblingEvent)
    : UIMenu.UIMenu B M * list UIMenu.BubblingEvent :=
  ((UIMenu.childEventFilter acc.1 e).1,
   acc.2 ++ option_list (UIMenu.childEventFilter acc.1 e).2).

Definition bubbleAll {B M : Type} (m : UIMenu.UIMenu B M)
    (es : list UIMenu.BubblingEvent)
    : UIMenu.UIMenu B M * list UIMenu.BubblingEvent :=
  foldl bubble (m, []) es.

(** The keys of the menu-item-selected events among [es], in order. *)
Definition selectedKeys (es : list UIMenu.BubblingEvent) : list string :=
  omap UIMenu.instanceofUIMenuItemSelectedEvent es.

(** The variables of the loop of lines 85-98 after the items [its], from
    the world [w]; and the world a pass over [its] leaves. *)
Definition loopResult (A : UIListItemAdapter) (w : World)
    (its : list ManagedObject) : Reconcile :=
  foldl (reconcileItem A)
    {| map := contentMap w;
       created := ManagedMap.toObject (contentMap w);
       components := [];
       nextId := nextManagedId w |} its.

Definition passResult (A : UIListItemAdapter) (w : World)
    (container : UIContainer) (its : list ManagedObject) : World :=
  {| controller :=
       setContainerContent (controller w) container
         (components (loopResult A w its));
     contentMap :=
       removeOld (created (loopResult A w its)) (map (loopResult A w its));
     nextManagedId := nextId (loopResult A w its);
     window___list := window___list w;
     focusCalls := focusCalls w |}.

(** The world in which [lastFocusedIndex] holds [index] and every other
    field is as in [w]. *)
Definition focusRecorded (w : World) (index : Z) : World :=
  {| controller :=
       {| content := content (controller w);
          enableArrowKeyFocus := enableArrowKeyFocus (controller w);
          items := items (controller w);
          firstIndex := firstIndex (controller w);
          maxItems := maxItems (controller w);
          lastFocusedIndex := index |};
     contentMap := contentMap w;
     nextManagedId := nextManagedId w;
     window___list := window___list w;
     focusCalls := focusCalls w |}.

(** The world in which [call] was made after the calls of [w] and every
    other field is as in [w]. *)
Definition focusCalled (w : World) (call : FocusCall) : World :=
  {| controller := controller w;
     contentMap := contentMap w;
     nextManagedId := nextManagedId w;
     window___list := window___list w;
     focusCalls := focusCalls w ++ [call] |}.

(** A container whose only child has no [requestFocus] method. *)
Definition muteChild : Component :=
  MkComponent 4001 (Some objA) false false
    (Some (containerSelf exampleContainer)).

Definition muteContainer : UIContainer :=
  {| containerSelf := containerSelf exampleContainer;
     containerContent := [muteChild] |}.

Definition muteWorld : World :=
  newWorld (Some muteContainer) 5000.

(** Scenario A rendered, then the content of the controller is unset and
    [items] is assigned the list [A]. *)
Definition detachedA : World :=
  setController renderedA
    {| content := None;
       enableArrowKeyFocus := true;
       items := Some [objA];
       firstIndex := 0;
       maxItems := None;
       lastFocusedIndex := 0 |}.

(** * Properties *)

(** ** Reconciliation *)

Lemma keyOf_inj o1 o2 : keyOf o1 = keyOf o2 → o1 = o2.
Proof.
  unfold keyOf. intros H. apply (inj pretty) in H.
  destruct o1, o2; simpl in *; congruence.
Qed.

Lemma wfMap_empty n : wfMap ∅ n.
Proof. split; intros *; rewrite lookup_empty; discriminate. Qed.

Section ManagedListFacts.
Context {A : Type} (ident : A → nat).

Lemma position_NoDup (l : list A) i x :
  NoDup (ident <$> l) → l !! i = Some x →
  ManagedList.position ident x l = Some i.
Proof.
  revert i. induction l as [|y l IH]; intros i Hnd Hi; [done|].
  rewrite fmap_cons in Hnd. apply NoDup_cons in Hnd as [Hy Hnd].
  destruct i as [|i]; simpl in *.
  - injection Hi as ->. by rewrite Nat.eqb_refl.
  - destruct (Nat.eqb (ident y) (ident x)) eqn:E.
    + apply Nat.eqb_eq in E. exfalso. apply Hy. rewrite E.
      apply list_elem_of_fmap. exists x. split; [done|].
      by eapply list_elem_of_lookup_2.
    + by rewrite (IH i Hnd Hi).
Qed.

Lemma position_Some (l : list A) x i :
  ManagedList.position ident x l = Some i →
  ∃ y, l !! i = Some y ∧ ident y = ident x.
Proof.
  revert i. induction l as [|y l IH]; intros i; simpl; [done|].
  destruct (Nat.eqb (ident y) (ident x)) eqn:E.
  - intros [= <-]. apply Nat.eqb_eq in E. eauto.
  - destruct (ManagedList.position ident x l) as [j|]; [|done].
    intros [= <-]. by apply IH.
Qed.

Lemma position_None (l : list A) x :
  ManagedList.position ident x l = None →
  ∀ y, y ∈ l → ident y ≠ ident x.
Proof.
  induction l as [|y l IH]; simpl; [by intros _ z Hz; inversion Hz|].
  destruct (Nat.eqb (ident y) (ident x)) eqn:E; [done|].
  destruct (ManagedList.position ident x l); [done|].
  intros _ z [->|Hz]%elem_of_cons; [apply Nat.eqb_neq; done|apply IH; done].
Qed.
End ManagedListFacts.

(** With a non-negative [firstIndex] and [maxItems] unset or non-negative the
    items of lines 75-82 are the window. *)
Lemma visibleItems_window c l :
  NoDup (managedId <$> l) →
  0 ≤ firstIndex c →
  (∀ m, maxItems c = Some m → 0 ≤ m) →
  visibleItems c l = Ok (windowSlice l (firstIndex c) (maxItems c)).
Proof.
  intros Hnd Hfi Hmx. unfold visibleItems, windowSlice, ManagedList.count.
  assert ((0 <=? firstIndex c) = true) as -> by (apply Z.leb_le; lia).
  simpl negb. cbv iota.
  destruct ((0 <? firstIndex c) || maxItemsGe0 (maxItems c)) eqn:Hcond.
  - destruct ((0 <? Z.of_nat (length l)) && (firstIndex c <? Z.of_nat (length l)))
      eqn:Hin.
    + apply andb_true_iff in Hin as [_ Hlt]. apply Z.ltb_lt in Hlt.
      unfold ManagedList.get.
      assert ((0 <=? firstIndex c) = true) as -> by (apply Z.leb_le; lia).
      destruct (l !! Z.to_nat (firstIndex c)) as [x|] eqn:Hx.
      2:{ apply lookup_ge_None in Hx. lia. }
      simpl. unfold ManagedList.take.
      rewrite (position_NoDup managedId l _ x Hnd Hx).
      destruct (maxItems c) as [m|]; simpl.
      * assert ((0 <=? m) = true) as -> by (apply Z.leb_le; by apply Hmx).
        done.
      * rewrite take_ge; [done|]. rewrite length_drop. lia.
    + apply andb_false_iff in Hin.
      assert (length l ≤ Z.to_nat (firstIndex c))%nat as Hge'.
      { destruct Hin as [H|H]; apply Z.ltb_ge in H; lia. }
      rewrite drop_ge by done. destruct (maxItems c); [by rewrite take_nil|done].
  - apply orb_false_iff in Hcond as [Hz Hm]. apply Z.ltb_ge in Hz.
    assert (firstIndex c = 0) as -> by lia.
    destruct (maxItems c) as [m|]; simpl in *.
    + exfalso. apply Z.leb_gt in Hm. specialize (Hmx m eq_refl). lia.
    + by rewrite drop_0.
Qed.

(** *** The loop of lines 88-98 *)

Lemma reconcileItem_inv A st item :
  LoopInv st → LoopInv (reconcileItem A st item).
Proof.
  intros [[Hview Halloc Hinj] Hsub]. unfold reconcileItem.
  destruct (created st !! keyOf item) as [c|] eqn:Hc; simpl.
  - split; [split; simpl; eauto|]. simpl.
    etrans; [apply delete_subseteq|done].
  - split; [split|]; simpl; unfold ManagedMap.set.
    + intros k c [[<- <-]|[Hne Hk]]%lookup_insert_Some; simpl; eauto.
    + intros k c [[<- <-]|[Hne Hk]]%lookup_insert_Some; simpl; [lia|].
      apply Halloc in Hk. lia.
    + intros k1 k2 c1 c2 [[<- <-]|[Hne1 Hk1]]%lookup_insert_Some
        [[<- <-]|[Hne2 Hk2]]%lookup_insert_Some; simpl; intros Heq; eauto.
      * apply Halloc in Hk2. lia.
      * apply Halloc in Hk1. lia.
    + by apply insert_subseteq_r.
Qed.

Lemma reconcile_inv A its st :
  LoopInv st → LoopInv (foldl (reconcileItem A) st its).
Proof.
  revert st. induction its as [|x its IH]; intros st Hst; simpl; [done|].
  by apply IH, reconcileItem_inv.
Qed.

Lemma reconcileItem_nextId A st item :
  (nextId st ≤ nextId (reconcileItem A st item))%nat.
Proof.
  unfold reconcileItem. destruct (created st !! keyOf item); simpl; lia.
Qed.

Lemma reconcile_nextId A its st :
  (nextId st ≤ nextId (foldl (reconcileItem A) st its))%nat.
Proof.
  revert st. induction its as [|x its IH]; intros st; simpl; [lia|].
  etrans; [apply (reconcileItem_nextId A st x)|apply IH].
Qed.

(** Only the keys of the items are written. *)
Lemma reconcile_map_other A its st k :
  k ∉ keyOf <$> its →
  map (foldl (reconcileItem A) st its) !! k = map st !! k.
Proof.
  revert st. induction its as [|x its IH]; intros st Hk; simpl; [done|].
  rewrite fmap_cons in Hk. apply not_elem_of_cons in Hk as [Hne Hk].
  rewrite IH by done. unfold reconcileItem.
  destruct (created st !! keyOf x); simpl; [done|].
  unfold ManagedMap.set. by rewrite lookup_insert_ne.
Qed.

(** The scratch copy loses exactly the keys of the items. *)
Lemma reconcile_created A its st k :
  created (foldl (reconcileItem A) st its) !! k
  = if decide (k ∈ keyOf <$> its) then None else created st !! k.
Proof.
  revert st. induction its as [|x its IH]; intros st; cbn [foldl].
  - rewrite fmap_nil. case_decide as H; [inversion H|done].
  - rewrite IH. rewrite fmap_cons.
    destruct (decide (k ∈ keyOf <$> its)) as [Hin|Hnin].
    + rewrite decide_True; [done|]. by right.
    + destruct (decide (k = keyOf x)) as [->|Hne].
      * rewrite decide_True by left. unfold reconcileItem.
        destruct (created st !! keyOf x) eqn:E; simpl; [|done].
        apply lookup_delete_eq.
      * rewrite decide_False.
        2:{ intros [?|?]%elem_of_cons; done. }
        unfold reconcileItem.
        destruct (created st !! keyOf x) eqn:E; simpl; [|done].
        by rewrite lookup_delete_ne.
Qed.

(** A binding found in the scratch copy is kept as it is. *)
Lemma reconcile_reuse A its st k c :
  NoDup (keyOf <$> its) → LoopInv st →
  created st !! k = Some c →
  map (foldl (reconcileItem A) st its) !! k = Some c.
Proof.
  revert st. induction its as [|x its IH]; intros st Hnd Hst Hc; simpl.
  - eapply lookup_weaken; [done|apply Hst].
  - rewrite fmap_cons in Hnd. apply NoDup_cons in Hnd as [Hx Hnd].
    destruct (decide (k = keyOf x)) as [->|Hne].
    + rewrite reconcile_map_other by done. unfold reconcileItem.
      rewrite Hc. simpl. eapply lookup_weaken; [done|apply Hst].
    + apply IH; [done|by apply reconcileItem_inv|].
      unfold reconcileItem.
      destruct (created st !! keyOf x); simpl; [|done].
      by rewrite lookup_delete_ne.
Qed.

(** The components collected for the container are the bindings of the items,
    in the order of the items. *)
Lemma reconcile_components A its st :
  NoDup (keyOf <$> its) → LoopInv st →
  ∃ cs, components (foldl (reconcileItem A) st its) = components st ++ cs ∧
        Forall2 (λ item c,
          map (foldl (reconcileItem A) st its) !! keyOf item = Some c) its cs.
Proof.
  revert st. induction its as [|x its IH]; intros st Hnd Hst; simpl.
  - exists []. by rewrite app_nil_r.
  - rewrite fmap_cons in Hnd. apply NoDup_cons in Hnd as [Hx Hnd].
    destruct (IH (reconcileItem A st x) Hnd (reconcileItem_inv A st x Hst))
      as (cs & Hcs & Hall).
    assert (∃ c, components (reconcileItem A st x) = components st ++ [c] ∧
                 map (reconcileItem A st x) !! keyOf x = Some c)
      as (c & Hc & Hm).
    { unfold reconcileItem.
      destruct (created st !! keyOf x) as [c|] eqn:E; simpl.
      - exists c. split; [done|]. eapply lookup_weaken; [done|apply Hst].
      - eexists. split; [done|]. unfold ManagedMap.set.
        apply lookup_insert_eq. }
    exists (c :: cs). split.
    + rewrite Hcs, Hc. by rewrite <- app_assoc.
    + constructor; [|done]. by rewrite reconcile_map_other.
Qed.

(** Removing the leftover components unbinds exactly the leftover keys. *)
Lemma removeOld_difference (cr m : gmap string Component) :
  (∀ k1 k2 c1 c2, m !! k1 = Some c1 → m !! k2 = Some c2 →
     componentId c1 = componentId c2 → k1 = k2) →
  cr ⊆ m → removeOld cr m = m ∖ cr.
Proof.
  intros Hinj. unfold removeOld.
  apply (map_fold_weak_ind (λ r cr0, cr0 ⊆ m → r = m ∖ cr0)).
  - intros _. apply map_eq. intros k.
    rewrite lookup_difference, lookup_empty. done.
  - intros i x cr0 r Hi IH Hsub.
    assert (cr0 ⊆ m) as Hsub0.
    { etrans; [|apply Hsub]. by apply insert_subseteq. }
    assert (m !! i = Some x) as Hmi.
    { eapply lookup_weaken; [|apply Hsub]. apply lookup_insert_eq. }
    rewrite (IH Hsub0). apply map_eq. intros k.
    unfold ManagedMap.remove. rewrite map_lookup_filter.
    rewrite !lookup_difference. rewrite lookup_insert.
    destruct (decide (i = k)) as [->|Hne]; simpl.
    + rewrite Hi, Hmi. simpl. rewrite option_guard_False; [done|].
      simpl. by intros H.
    + destruct (cr0 !! k) eqn:Hk; simpl; [done|].
      destruct (m !! k) as [c|] eqn:Hmk; simpl; [|done].
      rewrite option_guard_True; [done|]. simpl. intros Heq.
      apply Hne. symmetry. by eapply Hinj.
Qed.

Lemma Forall2_impl_elem {A B} (P Q : A → B → Prop) (l : list A) (k : list B) :
  Forall2 P l k → (∀ x y, x ∈ l → P x y → Q x y) → Forall2 Q l k.
Proof.
  induction 1 as [|x y l k Hxy Hlk IH]; intros HPQ; constructor.
  - apply HPQ; [left|done].
  - apply IH. intros x' y' Hx'. apply HPQ. by right.
Qed.

(** *** One pass of [onItemsChangeAsync] over a list and an adapter *)


Lemma onItemsChangeAsync_main A w container l its :
  wfWorld w →
  content (controller w) = Some container →
  items (controller w) = Some l →
  visibleItems (controller w) l = Ok its →
  NoDup (keyOf <$> its) →
  ∃ w' cs, onItemsChangeAsync (Some A) w = Ok w' ∧
           Reconciled w w' container its cs.
Proof.
  intros Hwf Hct Hl Hits Hnd. unfold onItemsChangeAsync.
  rewrite Hct, Hl, Hits. simpl.
  set (st0 := {| map := contentMap w;
                 created := ManagedMap.toObject (contentMap w);
                 components := [];
                 nextId := nextManagedId w |}).
  set (st := foldl (reconcileItem A) st0 its).
  assert (LoopInv st0) as Hinv0 by (split; simpl; done).
  pose proof (reconcile_inv A its st0 Hinv0) as [Hwf' Hsub']. fold st in Hwf', Hsub'.
  destruct (reconcile_components A its st0 Hnd Hinv0) as (cs & Hcs & Hall).
  fold st in Hcs, Hall. simpl in Hcs.
  assert (removeOld (created st) (map st) = map st ∖ created st) as Hfinal.
  { apply removeOld_difference; [apply Hwf'|done]. }
  assert (∀ k, k ∈ keyOf <$> its →
            (map st ∖ created st) !! k = map st !! k) as Hin.
  { intros k Hk. rewrite lookup_difference. unfold st at 1.
    rewrite reconcile_created. by rewrite decide_True. }
  assert (∀ k, k ∉ keyOf <$> its → (map st ∖ created st) !! k = None) as Hout.
  { intros k Hk. rewrite lookup_difference. unfold st at 1.
    rewrite reconcile_created. rewrite decide_False by done. simpl.
    unfold st. rewrite reconcile_map_other by done. simpl.
    unfold ManagedMap.toObject. by destruct (contentMap w !! k). }
  eexists _, cs. split; [reflexivity|].
  split; simpl; rewrite ?Hfinal.
  - by rewrite Hcs.
  - done.
  - unfold wfWorld. simpl.
    destruct Hwf' as [Hv Ha Hi]. split.
    + intros k c [Hk _]%lookup_difference_Some. eauto.
    + intros k c [Hk _]%lookup_difference_Some. eauto.
    + intros k1 k2 c1 c2 [Hk1 _]%lookup_difference_Some
        [Hk2 _]%lookup_difference_Some. eauto.
  - eapply Forall2_impl_elem; [apply Hall|]. simpl. intros item c Hitem Hc.
    rewrite Hin; [done|]. apply list_elem_of_fmap. eauto.
  - apply set_eq. intros k. rewrite elem_of_dom, elem_of_list_to_set.
    split.
    + intros [c Hc]. destruct (decide (k ∈ keyOf <$> its)); [done|].
      rewrite Hout in Hc; done.
    + intros Hk. rewrite Hin by done.
      apply list_elem_of_fmap in Hk as (item & -> & Hitem).
      apply list_elem_of_lookup in Hitem as [i Hi].
      destruct (Forall2_lookup_l _ _ _ _ _ Hall Hi) as (c & _ & Hc). eauto.
  - intros k c Hk Hc. rewrite Hin by done.
    unfold st. apply reconcile_reuse; done.
  - intros k c Hk Hc k' c' [Hc' Hcr]%lookup_difference_Some Heq.
    assert (map st !! k = Some c) as Hmk.
    { unfold st. rewrite reconcile_map_other; done. }
    assert (k' = k) as -> by (eapply Hwf'; eauto).
    specialize (Hout k Hk). rewrite lookup_difference, Hcr in Hout.
    simpl in Hout. congruence.
Qed.

Lemma windowSlice_sublist l f m : sublist (windowSlice l f m) l.
Proof.
  unfold windowSlice. destruct m.
  - etrans; [apply sublist_take|apply sublist_drop].
  - apply sublist_drop.
Qed.

Lemma windowSlice_keys_NoDup l f m :
  NoDup (managedId <$> l) → NoDup (keyOf <$> windowSlice l f m).
Proof.
  intros Hnd.
  assert (NoDup (managedId <$> windowSlice l f m)) as Hw.
  { apply (sublist_NoDup _ (managedId <$> l)); [done|].
    apply fmap_sublist, windowSlice_sublist. }
  unfold keyOf. change (λ item, pretty (managedId item)) with (pretty ∘ managedId).
  rewrite list_fmap_compose. by apply (NoDup_fmap_2 _).
Qed.

Lemma windowSlice_beyond l f m :
  ManagedList.count l ≤ f → windowSlice l f m = [].
Proof.
  unfold ManagedList.count, windowSlice. intros H.
  rewrite drop_ge by lia. destruct m; [apply take_nil|done].
Qed.

(** The children bound to the items are the views of the items. *)
Lemma children_adapted (m : gmap string Component) n its cs :
  wfMap m n →
  Forall2 (λ item c, m !! keyOf item = Some c) its cs →
  adaptedObject <$> cs = Some <$> its.
Proof.
  intros Hwf. induction 1 as [|item c its cs Hc _ IH]; [done|].
  rewrite !fmap_cons, IH. f_equal.
  destruct (wf_view _ _ Hwf _ _ Hc) as (o & -> & Ho).
  by rewrite (keyOf_inj _ _ Ho).
Qed.

Lemma children_viewOf (m : gmap string Component) n its cs item :
  wfMap m n →
  Forall2 (λ item c, m !! keyOf item = Some c) its cs →
  item ∈ its →
  head (filter (λ c, adaptedObject c = Some item) cs) = m !! keyOf item.
Proof.
  intros Hwf. induction 1 as [|x c its cs Hc _ IH]; intros Hin.
  - inversion Hin.
  - destruct (wf_view _ _ Hwf _ _ Hc) as (o & Hav & Ho).
    apply keyOf_inj in Ho as <-.
    destruct (decide (x = item)) as [->|Hne].
    + rewrite filter_cons_True by done. simpl. by rewrite Hc.
    + rewrite filter_cons_False by congruence.
      apply IH. apply elem_of_cons in Hin as [?|?]; [congruence|done].
Qed.

(** Every pass keeps the map well formed, whatever the fields hold. *)
Lemma onItemsChangeAsync_wf Adapter w w' :
  wfWorld w → onItemsChangeAsync Adapter w = Ok w' → wfWorld w'.
Proof.
  intros Hwf. unfold onItemsChangeAsync.
  destruct (content (controller w)) as [container|]; [|by intros [= <-]].
  destruct (items (controller w)) as [l|]; [|by intros [= <-]].
  destruct Adapter as [A|]; [|by intros [= <-]].
  destruct (visibleItems (controller w) l) as [its|]; simpl; [|done].
  intros [= <-]. unfold wfWorld. simpl.
  set (st0 := {| map := contentMap w;
                 created := ManagedMap.toObject (contentMap w);
                 components := [];
                 nextId := nextManagedId w |}).
  assert (LoopInv st0) as Hinv0 by (split; simpl; done).
  destruct (reconcile_inv A its st0 Hinv0) as [[Hv Ha Hi] Hsub].
  rewrite removeOld_difference by done.
  split.
  - intros k c [Hk _]%lookup_difference_Some. eauto.
  - intros k c [Hk _]%lookup_difference_Some. eauto.
  - intros k1 k2 c1 c2 [Hk1 _]%lookup_difference_Some
      [Hk2 _]%lookup_difference_Some. eauto.
Qed.

Lemma restoreFocus_contentMap w w' :
  restoreFocus w = Ok w' →
  contentMap w' = contentMap w ∧ nextManagedId w' = nextManagedId w.
Proof.
  unfold restoreFocus.
  destruct (content (controller w)) as [container|]; [|by intros [= <-]].
  destruct (0 <? ManagedList.count (containerContent container));
    [|by intros [= <-]].
  destruct (ManagedList.get _ _) as [goFocus|]; simpl; [|done].
  destruct (hasRequestFocus goFocus); by intros [= <-].
Qed.

(** The map is well formed in every world a controller goes through. *)
Lemma reachable_wf Adapter w : reachable Adapter w → wfWorld w.
Proof.
  induction 1 as [container next|w c _ IH|w w' _ IH Hstep|w e w' _ IH Hstep
                  |w e _ IH|w e _ IH].
  - apply wfMap_empty.
  - done.
  - by eapply onItemsChangeAsync_wf.
  - unfold onFocusIn in Hstep.
    destruct (negb (isContent (controller w) (source e))).
    + by injection Hstep as <-.
    + apply restoreFocus_contentMap in Hstep as [Hm Hn].
      unfold wfWorld. by rewrite Hm, Hn.
  - unfold onArrowUpKeyPress.
    destruct (enableArrowKeyFocus (controller w)); [|done].
    by destruct (_getListItemComponent _ _).
  - unfold onArrowDownKeyPress.
    destruct (enableArrowKeyFocus (controller w)); [|done].
    by destruct (_getListItemComponent _ _).
Qed.

(** A pass over a well-formed list with a window in range. *)
Lemma onItemsChangeAsync_window A w container l :
  wfWorld w →
  content (controller w) = Some container →
  items (controller w) = Some l →
  NoDup (managedId <$> l) →
  0 ≤ firstIndex (controller w) →
  (∀ m, maxItems (controller w) = Some m → 0 ≤ m) →
  ∃ w' cs, onItemsChangeAsync (Some A) w = Ok w' ∧
           Reconciled w w' container (currentWindow (controller w)) cs.
Proof.
  intros Hwf Hct Hl Hnd Hfi Hmx. unfold currentWindow. rewrite Hl.
  eapply onItemsChangeAsync_main; eauto.
  - by apply visibleItems_window.
  - by apply windowSlice_keys_NoDup.
Qed.

(** ** Claims on reconciliation *)

(** C1 (window correctness). With an adapter, a backing list, a
    [firstIndex >= 0] and a [maxItems] unset or [>= 0], the pass succeeds and
    the children of the rendered container are, in order, the views of
    [l[firstIndex : firstIndex+maxItems]] clipped to the bounds of [l]; they
    are none when [firstIndex] is at or beyond the length of [l]. *)
Theorem window_correctness A w container l :
  wfWorld w →
  content (controller w) = Some container →
  items (controller w) = Some l →
  NoDup (managedId <$> l) →
  0 ≤ firstIndex (controller w) →
  (∀ m, maxItems (controller w) = Some m → 0 ≤ m) →
  ∃ w', onItemsChangeAsync (Some A) w = Ok w' ∧
        adaptedObject <$> renderedChildren w'
        = Some <$> windowSlice l (firstIndex (controller w))
                     (maxItems (controller w)) ∧
        (ManagedList.count l ≤ firstIndex (controller w) →
         renderedChildren w' = []).
Proof.
  intros Hwf Hct Hl Hnd Hfi Hmx.
  destruct (onItemsChangeAsync_window A w container l) as (w' & cs & Hrun & Hrec);
    try done.
  exists w'. split; [done|].
  unfold currentWindow in Hrec. rewrite Hl in Hrec.
  assert (renderedChildren w' = cs) as Hcs.
  { unfold renderedChildren. by rewrite (rec_controller _ _ _ _ _ Hrec). }
  rewrite Hcs.
  pose proof (children_adapted _ _ _ _ (rec_wf _ _ _ _ _ Hrec)
                (rec_children _ _ _ _ _ Hrec)) as Hviews.
  split; [done|].
  intros Hbeyond. rewrite windowSlice_beyond in Hviews by done.
  by apply fmap_nil_inv in Hviews.
Qed.

Lemma window_correctness_witness :
  ∃ w', onItemsChangeAsync (Some exampleAdapter) scenarioB = Ok w' ∧
        adaptedObject <$> renderedChildren w' = Some <$> [objB; objC] ∧
        (ManagedList.count [objA; objB; objC; objD] ≤ 1 →
         renderedChildren w' = []).
Proof.
  apply (window_correctness exampleAdapter scenarioB exampleContainer
           [objA; objB; objC; objD]).
  - apply wfMap_empty.
  - reflexivity.
  - reflexivity.
  - apply (bool_decide_unpack _). vm_compute. exact I.
  - simpl. lia.
  - simpl. intros m [= <-]. lia.
Defined.

(** In a reconciled world the rendered view of an item of the window is its
    binding in the map. *)
Lemma Reconciled_viewOf w w' container its cs item :
  Reconciled w w' container its cs → item ∈ its →
  ∃ c, viewOf w' item = Some c ∧ contentMap w' !! keyOf item = Some c.
Proof.
  intros Hrec Hin. unfold viewOf, renderedChildren.
  rewrite (rec_controller _ _ _ _ _ Hrec). simpl.
  rewrite (children_viewOf _ _ _ _ _ (rec_wf _ _ _ _ _ Hrec)
             (rec_children _ _ _ _ _ Hrec) Hin).
  apply list_elem_of_lookup in Hin as [i Hi].
  destruct (Forall2_lookup_l _ _ _ _ _ (rec_children _ _ _ _ _ Hrec) Hi)
    as (c & _ & Hc).
  eauto.
Qed.

(** C2 (identity stability). After a pass, let [items], [firstIndex] and
    [maxItems] be assigned anew: the next pass succeeds, and an object of
    both windows is rendered by the same component instance, bound in the map
    as before. *)
Theorem identity_stability A w container l w1 l' f' m' item :
  wfWorld w →
  content (controller w) = Some container →
  items (controller w) = Some l →
  NoDup (managedId <$> l) →
  0 ≤ firstIndex (controller w) →
  (∀ m, maxItems (controller w) = Some m → 0 ≤ m) →
  onItemsChangeAsync (Some A) w = Ok w1 →
  NoDup (managedId <$> l') →
  0 ≤ f' →
  (∀ m, m' = Some m → 0 ≤ m) →
  item ∈ currentWindow (controller w) →
  item ∈ windowSlice l' f' m' →
  ∃ w2,
    onItemsChangeAsync (Some A)
      (setController w1 (setWindow (controller w1) (Some l') f' m')) = Ok w2 ∧
    sameInstance w1 w2 item.
Proof.
  intros Hwf Hct Hl Hnd Hfi Hmx Hrun1 Hnd' Hf' Hm' Hin Hin'.
  destruct (onItemsChangeAsync_window A w container l)
    as (w1' & cs & Hrun & Hrec); try done.
  rewrite Hrun1 in Hrun. injection Hrun as <-.
  destruct (Reconciled_viewOf _ _ _ _ _ _ Hrec Hin) as (c & Hview1 & Hmap1).
  set (w1' := setController w1 (setWindow (controller w1) (Some l') f' m')).
  destruct (onItemsChangeAsync_window A w1'
              {| containerSelf := containerSelf container;
                 containerContent := cs |} l')
    as (w2 & cs2 & Hrun2 & Hrec2); try done.
  { apply (rec_wf _ _ _ _ _ Hrec). }
  { simpl. by rewrite (rec_controller _ _ _ _ _ Hrec). }
  assert (currentWindow (controller w1') = windowSlice l' f' m') as Hw by done.
  rewrite Hw in Hrec2.
  destruct (Reconciled_viewOf _ _ _ _ _ _ Hrec2 Hin') as (c2 & Hview2 & Hmap2).
  assert (contentMap w2 !! keyOf item = Some c) as Hkeep.
  { apply (rec_reuse _ _ _ _ _ Hrec2); [|done].
    apply list_elem_of_fmap. eauto. }
  exists w2. split; [done|]. exists c.
  rewrite Hkeep in Hmap2. injection Hmap2 as <-. done.
Qed.

Lemma identity_stability_witness :
  ∃ w2, onItemsChangeAsync (Some exampleAdapter) scenarioC = Ok w2 ∧
        sameInstance renderedA w2 objC.
Proof.
  apply (identity_stability exampleAdapter scenarioA exampleContainer
           [objA; objB; objC] renderedA [objA; objC] 0 None objC).
  - apply wfMap_empty.
  - reflexivity.
  - reflexivity.
  - apply (bool_decide_unpack _). vm_compute. exact I.
  - simpl. lia.
  - simpl. intros m [=].
  - vm_compute. reflexivity.
  - apply (bool_decide_unpack _). vm_compute. exact I.
  - lia.
  - intros m [=].
  - apply (bool_decide_unpack _). vm_compute. exact I.
  - apply (bool_decide_unpack _). vm_compute. exact I.
Defined.

(** C3 (map invariant and cleanup), for a pass that runs with an adapter and
    a backing list: afterwards the keys of the map are exactly the identities
    of the window, a component is bound under one key only and is the view of
    the object of its key, and the component of an object that is not in the
    window is bound nowhere in the map and is no child of the container. *)
Theorem map_invariant_cleanup A w container l w' :
  wfWorld w →
  content (controller w) = Some container →
  items (controller w) = Some l →
  NoDup (managedId <$> l) →
  0 ≤ firstIndex (controller w) →
  (∀ m, maxItems (controller w) = Some m → 0 ≤ m) →
  onItemsChangeAsync (Some A) w = Ok w' →
  keysAreWindow w' ∧ oneViewPerIdentity w' ∧ departedAreGone w w'.
Proof.
  unfold keysAreWindow, oneViewPerIdentity, departedAreGone.
  intros Hwf Hct Hl Hnd Hfi Hmx Hrun1.
  destruct (onItemsChangeAsync_window A w container l)
    as (w1 & cs & Hrun & Hrec); try done.
  rewrite Hrun1 in Hrun. injection Hrun as <-.
  assert (currentWindow (controller w') = currentWindow (controller w)) as Hw.
  { by rewrite (rec_controller _ _ _ _ _ Hrec). }
  rewrite Hw. pose proof (rec_wf _ _ _ _ _ Hrec) as [Hv Ha Hi].
  split; [apply (rec_dom _ _ _ _ _ Hrec)|].
  split; [done|].
  intros o c Hc Hout.
  assert (keyOf o ∉ keyOf <$> currentWindow (controller w)) as Hk.
  { intros (o' & Ho & Hin)%list_elem_of_fmap.
    apply keyOf_inj in Ho as <-. done. }
  pose proof (rec_gone _ _ _ _ _ Hrec _ _ Hk Hc) as Hgone.
  split; [done|].
  intros c' Hc'. unfold renderedChildren in Hc'.
  rewrite (rec_controller _ _ _ _ _ Hrec) in Hc'. simpl in Hc'.
  apply list_elem_of_lookup in Hc' as [i Hi'].
  destruct (Forall2_lookup_r _ _ _ _ _ (rec_children _ _ _ _ _ Hrec) Hi')
    as (item & _ & Hitem).
  by eapply Hgone.
Qed.

Lemma map_invariant_cleanup_witness :
  keysAreWindow renderedC ∧ oneViewPerIdentity renderedC ∧
  departedAreGone scenarioC renderedC.
Proof.
  apply (map_invariant_cleanup exampleAdapter scenarioC
           {| containerSelf := containerSelf exampleContainer;
              containerContent := renderedChildren renderedA |}
           [objA; objC] renderedC).
  - apply (reachable_wf (Some exampleAdapter)).
    apply reach_assign.
    apply (reach_itemsChange _ scenarioA); [|vm_compute; reflexivity].
    apply reach_assign, reach_new.
  - vm_compute. reflexivity.
  - reflexivity.
  - apply (bool_decide_unpack _). vm_compute. exact I.
  - simpl. lia.
  - simpl. intros m [=].
  - vm_compute. reflexivity.
Defined.

(** Without the restriction to a pass with an adapter and a list, C3 fails
    on the pass that follows the unsetting of [items]: the world is
    reachable, the pass clears the container and the window is empty, yet the
    component of A stays bound in the map. *)
Lemma map_invariant_cleanup_counterexample :
  reachable (Some exampleAdapter) unsetA ∧
  onItemsChangeAsync (Some exampleAdapter) unsetA = Ok clearedA ∧
  currentWindow (controller clearedA) = [] ∧
  renderedChildren clearedA = [] ∧
  is_Some (contentMap clearedA !! keyOf objA) ∧
  ¬ keysAreWindow clearedA ∧
  ¬ departedAreGone unsetA clearedA.
Proof.
  assert (is_Some (contentMap clearedA !! keyOf objA)) as Hbound.
  { eexists. vm_compute. reflexivity. }
  split; [|split; [|split; [|split; [|split; [|split]]]]].
  - apply reach_assign.
    apply (reach_itemsChange _ scenarioA); [|vm_compute; reflexivity].
    apply reach_assign, reach_new.
  - vm_compute. reflexivity.
  - reflexivity.
  - reflexivity.
  - done.
  - unfold keysAreWindow. intros Hdom.
    apply elem_of_dom in Hbound. rewrite Hdom in Hbound.
    change (currentWindow (controller clearedA)) with (@nil ManagedObject)
      in Hbound.
    set_solver.
  - unfold departedAreGone. intros Hgone.
    destruct Hbound as [c Hc].
    assert (contentMap unsetA !! keyOf objA = Some c) as Hc0.
    { rewrite <- Hc. vm_compute. reflexivity. }
    destruct (Hgone objA c Hc0) as [Hmap _].
    { change (currentWindow (controller clearedA)) with (@nil ManagedObject).
      by intros H; inversion H. }
    by apply (Hmap _ _ Hc).
Qed.

(** Nor does C3 hold of a pass without a rendered container: the handler
    returns at line 66 and the map keeps the bindings of the objects that are
    no longer in the window. *)
Lemma no_container_pass :
  reachable (Some exampleAdapter) detachedA ∧
  content (controller detachedA) = None ∧
  onItemsChangeAsync (Some exampleAdapter) detachedA = Ok detachedA ∧
  currentWindow (controller detachedA) = [objA] ∧
  is_Some (contentMap detachedA !! keyOf objB) ∧
  ¬ keysAreWindow detachedA.
Proof.
  assert (is_Some (contentMap detachedA !! keyOf objB)) as Hbound.
  { eexists. vm_compute. reflexivity. }
  split; [|split; [|split; [|split; [|split]]]].
  - apply reach_assign.
    apply (reach_itemsChange _ scenarioA); [|vm_compute; reflexivity].
    apply reach_assign, reach_new.
  - reflexivity.
  - reflexivity.
  - reflexivity.
  - exact Hbound.
  - unfold keysAreWindow. intros Hdom.
    apply elem_of_dom in Hbound. rewrite Hdom in Hbound.
    change (currentWindow (controller detachedA)) with [objA] in Hbound.
    apply elem_of_list_to_set, list_elem_of_fmap in Hbound
      as (o & Ho & Hin).
    apply keyOf_inj in Ho as <-. apply list_elem_of_singleton in Hin.
    discriminate.
Qed.

(** C4 (missing adapter or missing list). Without an adapter or without a
    backing list the pass raises nothing and leaves the rendered container
    without children; nothing else changes. *)
Theorem missing_adapter_or_list Adapter w :
  Adapter = None ∨ items (controller w) = None →
  ∃ w', onItemsChangeAsync Adapter w = Ok w' ∧
        renderedChildren w' = [] ∧
        (containerSelf <$> content (controller w')
         = containerSelf <$> content (controller w)) ∧
        contentMap w' = contentMap w ∧
        focusCalls w' = focusCalls w.
Proof.
  intros Hmissing. unfold onItemsChangeAsync, renderedChildren.
  destruct (content (controller w)) as [container|] eqn:Hct.
  - destruct (items (controller w)) as [l|] eqn:Hl.
    + destruct Hmissing as [->|?]; [|done].
      eexists. split; [reflexivity|]. done.
    + eexists. split; [reflexivity|]. done.
  - exists w. by rewrite Hct.
Qed.

Lemma missing_adapter_or_list_witness :
  ∃ w', onItemsChangeAsync (Some exampleAdapter) unsetA = Ok w' ∧
        renderedChildren w' = [] ∧
        (containerSelf <$> content (controller w')
         = containerSelf <$> content (controller unsetA)) ∧
        contentMap w' = contentMap unsetA ∧
        focusCalls w' = focusCalls unsetA.
Proof.
  apply (missing_adapter_or_list (Some exampleAdapter) unsetA).
  right. reflexivity.
Defined.

(** ** Focus *)

Lemma clamp_min_max v hi : 0 ≤ hi → Z.min hi (Z.max v 0) = clamp v 0 hi.
Proof.
  intros Hhi. unfold clamp.
  destruct (v <? 0) eqn:E1; [apply Z.ltb_lt in E1; lia|].
  apply Z.ltb_ge in E1.
  destruct (hi <? v) eqn:E2; [apply Z.ltb_lt in E2|apply Z.ltb_ge in E2]; lia.
Qed.

Lemma clamp_range v hi : 0 ≤ hi → 0 ≤ clamp v 0 hi ≤ hi.
Proof.
  intros Hhi. unfold clamp.
  destruct (v <? 0) eqn:E1; [lia|]. apply Z.ltb_ge in E1.
  destruct (hi <? v) eqn:E2; [lia|]. apply Z.ltb_ge in E2. lia.
Qed.

(** On an integer [lastFocusedIndex], [restoreFocus] raises nothing and
    leaves the controller, the map and the allocator as they are. Without
    children (or without a container) the world is unchanged. With children
    the index [clamp(lastFocusedIndex, 0, childCount-1)] is within
    [0, childCount), and [requestFocus] is called on the child at that index
    when it has the method and on nothing otherwise; [window.__list] is then
    the content. *)
Lemma restoreFocus_safe w :
  ∃ w', restoreFocus w = Ok w' ∧
        controller w' = controller w ∧
        contentMap w' = contentMap w ∧
        nextManagedId w' = nextManagedId w ∧
        (renderedChildren w = [] → w' = w) ∧
        (renderedChildren w ≠ [] →
         let index := clamp (lastFocusedIndex (controller w)) 0
                        (ManagedList.count (renderedChildren w) - 1) in
         0 ≤ index < ManagedList.count (renderedChildren w) ∧
         ∃ child, renderedChildren w !! Z.to_nat index = Some child ∧
                  focusCalls w'
                  = focusCalls w ++
                    (if hasRequestFocus child then [RequestFocus child]
                     else []) ∧
                  window___list w' = content (controller w)).
Proof.
  unfold restoreFocus, renderedChildren.
  destruct (content (controller w)) as [container|] eqn:Hct; simpl.
  2:{ exists w. repeat split; done. }
  unfold ManagedList.count.
  destruct (containerContent container) as [|c0 cs] eqn:Hcs; simpl length.
  { exists w. repeat split; done. }
  assert ((0 <? Z.of_nat (S (length cs))) = true) as -> by (apply Z.ltb_lt; lia).
  set (hi := Z.of_nat (S (length cs)) - 1).
  assert (0 ≤ hi) as Hhi by (unfold hi; lia).
  rewrite (clamp_min_max _ hi Hhi).
  pose proof (clamp_range (lastFocusedIndex (controller w)) hi Hhi) as Hrange.
  set (index := clamp (lastFocusedIndex (controller w)) 0 hi) in *.
  unfold ManagedList.get.
  assert ((0 <=? index) = true) as -> by (apply Z.leb_le; lia).
  destruct ((c0 :: cs) !! Z.to_nat index) as [child|] eqn:Hchild.
  2:{ apply lookup_ge_None in Hchild. simpl in Hchild. unfold hi in Hrange. lia. }
  simpl. destruct (hasRequestFocus child) eqn:Hfocus.
  - eexists. split; [reflexivity|]. simpl.
    repeat split; try done; try (unfold hi in Hrange; lia).
    exists child. by rewrite Hfocus.
  - eexists. split; [reflexivity|]. simpl.
    repeat split; try done; try (unfold hi in Hrange; lia).
    exists child. rewrite Hfocus, app_nil_r. done.
Qed.

(** On integers the two definitions of [restoreFocus] agree. *)
Lemma restoreFocusNumber_Int w :
  restoreFocusNumber (Int (lastFocusedIndex (controller w))) w
  = restoreFocus w.
Proof. reflexivity. Qed.

(** C5 (focus restore), where the code departs from it. For a child that
    has no [requestFocus] the call is not silent: no focus is requested, but
    line 151 has assigned the content to the global [window.__list], so the
    world is not the one before. With [lastFocusedIndex] holding [NaN] and a
    container with children, [Math.max] and [Math.min] hand [NaN] to
    [content.get] and the call raises. *)
Theorem restoreFocus_not_silent :
  hasRequestFocus muteChild = false ∧
  window___list muteWorld = None ∧
  restoreFocus muteWorld
  = Ok {| controller := controller muteWorld;
          contentMap := contentMap muteWorld;
          nextManagedId := nextManagedId muteWorld;
          window___list := Some muteContainer;
          focusCalls := [] |} ∧
  restoreFocus muteWorld ≠ Ok muteWorld ∧
  restoreFocusNumber NaN muteWorld = Throw "[List] Index out of bounds" ∧
  restoreFocusNumber NaN renderedA = Throw "[List] Index out of bounds".
Proof.
  split; [reflexivity|]. split; [reflexivity|]. split; [reflexivity|].
  split; [|split; reflexivity].
  intros H. injection H as H. discriminate H.
Qed.

(** [restoreFocus] returns and leaves the controller as it is. *)
Lemma restoreFocus_controller w :
  ∃ w', restoreFocus w = Ok w' ∧ controller w' = controller w.
Proof.
  unfold restoreFocus.
  destruct (content (controller w)) as [container|]; [|by exists w].
  unfold ManagedList.count.
  destruct (containerContent container) as [|c0 cs] eqn:Hcs; [by exists w|].
  assert ((0 <? Z.of_nat (length (c0 :: cs))) = true) as ->
    by (apply Z.ltb_lt; simpl; lia).
  unfold ManagedList.get.
  assert ((0 <=? Z.min (Z.of_nat (length (c0 :: cs)) - 1)
                   (Z.max (lastFocusedIndex (controller w)) 0)) = true) as ->
    by (apply Z.leb_le; simpl length; lia).
  destruct ((c0 :: cs) !! _) as [child|] eqn:Hchild.
  2:{ apply lookup_ge_None in Hchild. simpl length in Hchild. lia. }
  simpl. destruct (hasRequestFocus child); eexists; split; reflexivity.
Qed.

(** [restoreFocus] on a container with children, in full. *)
Lemma restoreFocus_run w container :
  content (controller w) = Some container →
  containerContent container ≠ [] →
  ∃ child,
    containerContent container
      !! Z.to_nat (clamp (lastFocusedIndex (controller w)) 0
                     (ManagedList.count (containerContent container) - 1))
    = Some child ∧
    restoreFocus w = Ok (focusRestored w container child).
Proof.
  intros Hct Hne. unfold restoreFocus, focusRestored. rewrite Hct.
  unfold ManagedList.count.
  destruct (containerContent container) as [|c0 cs] eqn:Hcs; [done|].
  assert ((0 <? Z.of_nat (length (c0 :: cs))) = true) as ->
    by (apply Z.ltb_lt; simpl; lia).
  set (hi := Z.of_nat (length (c0 :: cs)) - 1).
  assert (0 ≤ hi) as Hhi by (unfold hi; simpl length; lia).
  rewrite (clamp_min_max _ hi Hhi).
  pose proof (clamp_range (lastFocusedIndex (controller w)) hi Hhi) as Hrange.
  set (index := clamp (lastFocusedIndex (controller w)) 0 hi) in *.
  unfold ManagedList.get.
  assert ((0 <=? index) = true) as -> by (apply Z.leb_le; lia).
  destruct ((c0 :: cs) !! Z.to_nat index) as [child|] eqn:Hchild.
  2:{ apply lookup_ge_None in Hchild. unfold hi in Hrange. lia. }
  exists child. split; [done|]. simpl.
  destruct (hasRequestFocus child); [done|]. by rewrite app_nil_r.
Qed.

(** *** The parent chain *)

Lemma ancestorsOrSelf_unfold c :
  ancestorsOrSelf c
  = c :: match getParentComponent c with
         | Some parent => ancestorsOrSelf parent
         | None => []
         end.
Proof. by destruct c. Qed.

Lemma walkToChild_unfold container c :
  walkToChild container c
  = match getParentComponent c with
    | Some parent =>
        if sameComponent parent (containerSelf container) then Some c
        else walkToChild container parent
    | None => None
    end.
Proof. by destruct c. Qed.

Lemma listItemLoop_unfold c s target :
  listItemLoop c s target
  = if isContent c s then target
    else
      let target' := if isUIComponent s then Some s else target in
      match getParentComponent s with
      | Some parent => listItemLoop c parent target'
      | None => target'
      end.
Proof. by destruct s. Qed.

(** The walk of [getIndexOfComponent] stops at the first component of the
    chain that is a direct child of the container. *)
Lemma walkToChild_find container c :
  walkToChild container c
  = List.find (isChildOf container) (ancestorsOrSelf c).
Proof.
  induction c as [c Hroot|c parent Hparent IH] using Component_parent_ind;
    rewrite walkToChild_unfold, ancestorsOrSelf_unfold; simpl;
    unfold isChildOf at 1; rewrite ?Hroot, ?Hparent; [done|].
  by destruct (sameComponent parent (containerSelf container)).
Qed.

(** The parent of a component of the chain comes later in the chain. *)
Lemma parent_in_tail q child parent :
  child ∈ ancestorsOrSelf q → getParentComponent child = Some parent →
  parent ∈ tail (ancestorsOrSelf q).
Proof.
  induction q as [q Hroot|q p Hp IH] using Component_parent_ind;
    rewrite ancestorsOrSelf_unfold; rewrite ?Hroot, ?Hp; simpl.
  - intros ->%list_elem_of_singleton. congruence.
  - intros [->|Hin]%elem_of_cons Hparent.
    + assert (parent = p) as -> by congruence.
      rewrite ancestorsOrSelf_unfold. left.
    + specialize (IH Hin Hparent).
      rewrite ancestorsOrSelf_unfold in IH |- *. simpl in IH. by right.
Qed.

(** In an acyclic chain the direct child that contains the source is the
    one the walk stops at. *)
Lemma containingChild_find container s child :
  acyclic s → containingChild container s child →
  List.find (isChildOf container) (ancestorsOrSelf s) = Some child.
Proof.
  unfold acyclic, containingChild.
  induction s as [s Hroot|s p Hp IH] using Component_parent_ind;
    rewrite ancestorsOrSelf_unfold; rewrite ?Hroot, ?Hp; simpl;
    intros Hnd [Hin Hchild].
  - apply list_elem_of_singleton in Hin as ->. by rewrite Hchild.
  - apply NoDup_cons in Hnd as [_ Hnd].
    destruct (isChildOf container s) eqn:Hs.
    + apply elem_of_cons in Hin as [->|Hin]; [done|]. exfalso.
      unfold isChildOf in Hs, Hchild. rewrite Hp in Hs.
      destruct (getParentComponent child) as [p'|] eqn:Hp'; [|done].
      pose proof (parent_in_tail p child p' Hin Hp') as Htail.
      rewrite ancestorsOrSelf_unfold in Hnd, Htail. simpl in Hnd, Htail.
      apply NoDup_cons in Hnd as [Hnotin _]. apply Hnotin.
      apply Nat.eqb_eq in Hs, Hchild. rewrite Hs, <- Hchild.
      apply list_elem_of_fmap. eauto.
    + apply elem_of_cons in Hin as [->|Hin]; [congruence|].
      by apply IH.
Qed.

Lemma notDescendant_find container s :
  notDescendant container s →
  List.find (isChildOf container) (ancestorsOrSelf s) = None.
Proof.
  unfold notDescendant. generalize (ancestorsOrSelf s) as chain.
  induction chain as [|x chain IH]; intros Hnone; [done|]. simpl.
  rewrite (Hnone x) by left. apply IH. intros y Hy. apply Hnone. by right.
Qed.

(** C6 (focus-in). When the source is not the content of the controller,
    [lastFocusedIndex] becomes [max(0, i)] with [i] the index of the direct
    child of the container that contains or equals the source, hence 0 when
    the source is no descendant of the container (or there is no container);
    no other field changes. When the source is the content, the handler is
    [restoreFocus]: the controller, [lastFocusedIndex] with it, is unchanged,
    nothing happens on a container without children, and otherwise the child
    at [clamp(lastFocusedIndex, 0, childCount-1)] is asked to take the focus
    when it has the method. *)
Theorem focus_in_handling w e :
  acyclic (source e) →
  (isContent (controller w) (source e) = false →
   (∀ container child,
      content (controller w) = Some container →
      containingChild container (source e) child →
      onFocusIn w e
      = Ok (focusRecorded w
              (Z.max 0 (ManagedList.indexOf componentId
                          (containerContent container) child)))) ∧
   ((∀ container, content (controller w) = Some container →
       notDescendant container (source e)) →
    onFocusIn w e = Ok (focusRecorded w 0))) ∧
  (isContent (controller w) (source e) = true →
   onFocusIn w e = restoreFocus w ∧
   (∃ w', onFocusIn w e = Ok w' ∧
          lastFocusedIndex (controller w') = lastFocusedIndex (controller w) ∧
          controller w' = controller w) ∧
   ∀ container, content (controller w) = Some container →
     (containerContent container = [] → onFocusIn w e = Ok w) ∧
     (containerContent container ≠ [] →
      ∃ child,
        containerContent container
          !! Z.to_nat (clamp (lastFocusedIndex (controller w)) 0
                         (ManagedList.count (containerContent container) - 1))
        = Some child ∧
        onFocusIn w e = Ok (focusRestored w container child))).
Proof.
  intros Hacyclic. unfold onFocusIn. split.
  - intros ->. simpl. unfold getIndexOfComponent. split.
    + intros container child -> Hchild. simpl.
      rewrite walkToChild_find, (containingChild_find _ _ child); done.
    + intros Hout. destruct (content (controller w)) as [container|]; [|done].
      simpl. by rewrite walkToChild_find, notDescendant_find by eauto.
  - intros ->. simpl. split; [done|]. split.
    + destruct (restoreFocus_controller w) as (w' & Hrun & Hctl).
      exists w'. by rewrite Hctl.
    + intros container Hct. split.
      * intros Hnil. unfold restoreFocus. by rewrite Hct, Hnil.
      * intros Hne. by apply restoreFocus_run.
Qed.

Lemma focus_in_handling_witness :
  (isContent (controller renderedA) innerLabel = false →
   (∀ container child,
      content (controller renderedA) = Some container →
      containingChild container innerLabel child →
      onFocusIn renderedA {| name := "FocusIn"; source := innerLabel |}
      = Ok (focusRecorded renderedA
              (Z.max 0 (ManagedList.indexOf componentId
                          (containerContent container) child)))) ∧
   ((∀ container, content (controller renderedA) = Some container →
       notDescendant container innerLabel) →
    onFocusIn renderedA {| name := "FocusIn"; source := innerLabel |}
    = Ok (focusRecorded renderedA 0))) ∧
  (isContent (controller renderedA) innerLabel = true →
   onFocusIn renderedA {| name := "FocusIn"; source := innerLabel |}
   = restoreFocus renderedA ∧
   (∃ w', onFocusIn renderedA {| name := "FocusIn"; source := innerLabel |}
          = Ok w' ∧
          lastFocusedIndex (controller w')
          = lastFocusedIndex (controller renderedA) ∧
          controller w' = controller renderedA) ∧
   ∀ container, content (controller renderedA) = Some container →
     (containerContent container = [] →
      onFocusIn renderedA {| name := "FocusIn"; source := innerLabel |}
      = Ok renderedA) ∧
     (containerContent container ≠ [] →
      ∃ child,
        containerContent container
          !! Z.to_nat (clamp (lastFocusedIndex (controller renderedA)) 0
                         (ManagedList.count (containerContent container) - 1))
        = Some child ∧
        onFocusIn renderedA {| name := "FocusIn"; source := innerLabel |}
        = Ok (focusRestored renderedA container child))).
Proof.
  apply (focus_in_handling renderedA
           {| name := "FocusIn"; source := innerLabel |}).
  apply (bool_decide_unpack _). vm_compute. exact I.
Defined.

(** The focus of the inner label of scenario A leaves 1 in
    [lastFocusedIndex]; a focus on the container itself goes to the first
    child. *)
Example focus_in_scenario_A :
  (∃ w', onFocusIn renderedA {| name := "FocusIn"; source := innerLabel |}
         = Ok w' ∧ lastFocusedIndex (controller w') = 1) ∧
  (∃ w', onFocusIn renderedA
           {| name := "FocusIn"; source := containerSelf exampleContainer |}
         = Ok w' ∧
         lastFocusedIndex (controller w') = 0 ∧
         (RequestFocus <$> head (renderedChildren renderedA))
         = head (focusCalls w')).
Proof.
  split; eexists; (split; [vm_compute; reflexivity|]); try done.
Qed.

(** The focus of the inner label of scenario A is recorded at index 1. *)
Example focus_in_inner_label :
  onFocusIn renderedA {| name := "FocusIn"; source := innerLabel |}
  = Ok (setController renderedA
          (setLastFocusedIndex (controller renderedA) 1)).
Proof. vm_compute. reflexivity. Qed.

(** *** Arrow keys *)

(** The target of [_getListItemComponent] is the topmost [UIComponent] of
    the chain below the content, or below the root when the chain does not
    reach the content. *)
Lemma listItemLoop_spec c s target :
  listItemLoop c s target
  = match last (List.filter isUIComponent
                  (belowContent c (ancestorsOrSelf s))) with
    | Some t => Some t
    | None => target
    end.
Proof.
  revert target.
  induction s as [s Hroot|s p Hp IH] using Component_parent_ind;
    intros target; rewrite listItemLoop_unfold, ancestorsOrSelf_unfold;
    rewrite ?Hroot, ?Hp; simpl;
    destruct (isContent c s); simpl; try done.
  - by destruct (isUIComponent s).
  - rewrite IH. destruct (isUIComponent s); [|done].
    rewrite last_cons. by destruct (last _).
Qed.

Lemma belowContent_contained c container s child :
  content c = Some container →
  acyclic s → containingChild container s child →
  ∃ pre, belowContent c (ancestorsOrSelf s) = pre ++ [child].
Proof.
  intros Hct. unfold acyclic, containingChild.
  induction s as [s Hroot|s p Hp IH] using Component_parent_ind;
    rewrite ancestorsOrSelf_unfold; rewrite ?Hroot, ?Hp; simpl;
    intros Hnd [Hin Hchild].
  - apply list_elem_of_singleton in Hin as ->.
    unfold isChildOf in Hchild. by rewrite Hroot in Hchild.
  - apply NoDup_cons in Hnd as [Hs Hnd].
    assert (isContent c s = false) as ->.
    { unfold isContent. rewrite Hct. apply Nat.eqb_neq. intros Heq.
      unfold isChildOf in Hchild.
      destruct (getParentComponent child) as [p'|] eqn:Hp'; [|done].
      apply Nat.eqb_eq in Hchild.
      assert (p' ∈ ancestorsOrSelf p) as Htail.
      { pose proof (parent_in_tail s child p') as H.
        rewrite (ancestorsOrSelf_unfold s), Hp in H. simpl in H.
        apply H; [done|done]. }
      apply Hs. rewrite Heq, <- Hchild. apply list_elem_of_fmap. eauto. }
    apply elem_of_cons in Hin as [->|Hin].
    + exists []. simpl. f_equal.
      rewrite ancestorsOrSelf_unfold. simpl.
      unfold isChildOf in Hchild. rewrite Hp in Hchild.
      unfold isContent. by rewrite Hct, Hchild.
    + destruct (IH Hnd (conj Hin Hchild)) as [pre Hpre].
      exists (s :: pre). simpl. by rewrite Hpre.
Qed.

(** For a source inside the container whose containing direct child is a
    [UIComponent], the target is that child. *)
Lemma getListItemComponent_contained c container s child :
  content c = Some container →
  acyclic s → containingChild container s child →
  isUIComponent child = true →
  _getListItemComponent c (Some s) = Some child.
Proof.
  intros Hct Hacyclic Hchild Hui. simpl. rewrite listItemLoop_spec.
  destruct (belowContent_contained c container s child) as [pre ->]; try done.
  rewrite List.filter_app. simpl. rewrite Hui. by rewrite last_snoc.
Qed.

(** The handlers do nothing while arrow key focus is disabled. *)
Lemma arrow_keys_disabled w e :
  enableArrowKeyFocus (controller w) = false →
  onArrowUpKeyPress w e = w ∧ onArrowDownKeyPress w e = w.
Proof.
  intros H. unfold onArrowUpKeyPress, onArrowDownKeyPress. by rewrite H.
Qed.

(** For a source inside the container the handlers ask the containing item
    to move the focus to its previous or next sibling. *)
Lemma arrow_keys_contained w e container child :
  enableArrowKeyFocus (controller w) = true →
  content (controller w) = Some container →
  acyclic (source e) → containingChild container (source e) child →
  isUIComponent child = true →
  onArrowUpKeyPress w e = logFocusCall w (RequestFocusPrevious child) ∧
  onArrowDownKeyPress w e = logFocusCall w (RequestFocusNext child).
Proof.
  intros Hen Hct Hacyclic Hchild Hui.
  unfold onArrowUpKeyPress, onArrowDownKeyPress. rewrite Hen.
  by rewrite (getListItemComponent_contained _ container _ child).
Qed.

(** C7 (arrow keys), at a source outside the container: [outsider] has no
    parent and is no descendant of the container of scenario A, yet the
    handlers do not leave the world as it is; they call
    [requestFocusPrevious] and [requestFocusNext] on [outsider] itself. *)
Theorem arrow_keys_outside_container :
  notDescendant exampleContainer outsider ∧
  isContent (controller renderedA) outsider = false ∧
  onArrowUpKeyPress renderedA {| name := "ArrowUpKeyPress"; source := outsider |}
  = logFocusCall renderedA (RequestFocusPrevious outsider) ∧
  onArrowDownKeyPress renderedA
    {| name := "ArrowDownKeyPress"; source := outsider |}
  = logFocusCall renderedA (RequestFocusNext outsider) ∧
  onArrowUpKeyPress renderedA {| name := "ArrowUpKeyPress"; source := outsider |}
  ≠ renderedA.
Proof.
  split; [|split; [|split; [|split]]].
  - intros x Hx. apply list_elem_of_singleton in Hx as ->. reflexivity.
  - reflexivity.
  - reflexivity.
  - reflexivity.
  - intros H. apply (f_equal focusCalls) in H. vm_compute in H. discriminate.
Qed.

(** ** Menus *)

Section MenuProperties.
Context {B M : Type} `{!UIMenu.UIMenuBuilder B M}.

(** The loop over the options calls [addOption] once per option, in the
    order of the list. *)
Lemma addOptions_spec (opts : list UIMenu.MenuOption) (b : B)
    (log : list (UIMenu.Call M)) :
  UIMenu.addOptions opts b log
  = (foldl (λ b' o, UIMenu.addOption (UIMenu.key o) (UIMenu.text o) b')
           b opts,
     log ++ addOptionCalls opts).
Proof.
  unfold UIMenu.addOptions, addOptionCalls. revert b log.
  induction opts as [|o opts IH]; intros b log; simpl.
  - by rewrite app_nil_r.
  - rewrite IH. by rewrite <- app_assoc.
Qed.

(** C8 (menu build sequence). With a non-empty list of options [render]
    calls [clear()], [addOption] for each option in order, [setGravity]
    only with a gravity set, emits "Build", calls [build()], constructs
    one instance of the class built, and renders it with the callback:
    [build()] and the construction occur once; the instance becomes [menu],
    whatever [menu] was. *)
Theorem render_build_sequence (onBuild : B → B) (fresh : nat)
    (m : UIMenu.UIMenu B M) (callback : nat) :
  UIMenu.options m ≠ [] →
  let b := onBuild (withGravity (UIMenu.gravity m)
                      (populated (UIMenu.options m) (UIMenu.builder m))) in
  let calls := (UIMenu.render onBuild fresh m callback).2 in
  UIMenu.render onBuild fresh m callback
  = (rendered m b fresh,
     [UIMenu.BuilderClear] ++ addOptionCalls (UIMenu.options m)
     ++ gravityCalls (UIMenu.gravity m)
     ++ buildCalls (UIMenu.build b) fresh callback) ∧
  length (List.filter isBuilderBuild calls) = 1%nat ∧
  length (List.filter isNew calls) = 1%nat.
Proof.
  intros Hopts.
  assert (UIMenu.render onBuild fresh m callback
          = (rendered m
               (onBuild (withGravity (UIMenu.gravity m)
                  (populated (UIMenu.options m) (UIMenu.builder m)))) fresh,
             [UIMenu.BuilderClear] ++ addOptionCalls (UIMenu.options m)
             ++ gravityCalls (UIMenu.gravity m)
             ++ buildCalls
                  (UIMenu.build
                     (onBuild (withGravity (UIMenu.gravity m)
                        (populated (UIMenu.options m) (UIMenu.builder m)))))
                  fresh callback)) as Hrender.
  { unfold UIMenu.render, rendered, populated, withGravity, gravityCalls.
    destruct (UIMenu.options m) as [|o opts] eqn:Ho; [done|].
    cbn [length Nat.eqb negb]. rewrite addOptions_spec.
    destruct (UIMenu.gravity m); simpl; rewrite <- ?app_assoc; done. }
  cbv zeta. rewrite Hrender. split; [done|]. cbn [snd].
  rewrite !List.filter_app, !length_app.
  assert (∀ f, (∀ o, f (UIMenu.BuilderAddOption (M:=M) (UIMenu.key o)
                         (UIMenu.text o)) = false) →
               List.filter f (addOptionCalls (UIMenu.options m)) = [])
    as Hnone.
  { intros f Hf. unfold addOptionCalls.
    generalize (UIMenu.options m) as opts.
    induction opts as [|o opts IH]; [done|].
    rewrite fmap_cons. simpl. by rewrite Hf. }
  rewrite !Hnone by done.
  destruct (UIMenu.gravity m); done.
Qed.

(** C9 (selection propagation). A menu-item-selected event with key [k]
    that bubbles up from the child sets [selected] to [k], changes no other
    field, and is emitted again, the same event, from the menu. *)
Theorem selection_propagation (m : UIMenu.UIMenu B M)
    (e : UIComponentEvent) (k : string) :
  let after := UIMenu.childEventFilter m (UIMenu.MenuItemSelectedEvent e k) in
  after.2 = Some (UIMenu.MenuItemSelectedEvent e k) ∧
  UIMenu.selected after.1 = Some k ∧
  UIMenu.builder after.1 = UIMenu.builder m ∧
  UIMenu.menu after.1 = UIMenu.menu m ∧
  UIMenu.gravity after.1 = UIMenu.gravity m ∧
  UIMenu.options after.1 = UIMenu.options m.
Proof. done. Qed.

(** Other component events pass unchanged and leave [selected] alone;
    events that are no component events are not propagated. *)
Lemma other_events (m : UIMenu.UIMenu B M) (e : UIComponentEvent)
    (name_ : string) :
  UIMenu.childEventFilter m (UIMenu.ComponentEvent e)
  = (m, Some (UIMenu.ComponentEvent e)) ∧
  UIMenu.childEventFilter m (UIMenu.OtherEvent name_) = (m, None).
Proof. done. Qed.

(** C10 (empty options). With an empty list of options [render] calls
    neither [clear()] nor [addOption]: the builder goes to [build()] as it
    was, but for [setGravity] (with a gravity set) and the handlers of
    "Build", which both still occur, as does [build()]. *)
Theorem render_empty_options (onBuild : B → B) (fresh : nat)
    (m : UIMenu.UIMenu B M) (callback : nat) :
  UIMenu.options m = [] →
  let b := onBuild (withGravity (UIMenu.gravity m) (UIMenu.builder m)) in
  UIMenu.render onBuild fresh m callback
  = (rendered m b fresh,
     gravityCalls (UIMenu.gravity m)
     ++ buildCalls (UIMenu.build b) fresh callback).
Proof.
  intros Hopts. unfold UIMenu.render, rendered, withGravity, gravityCalls.
  rewrite Hopts. simpl. by destruct (UIMenu.gravity m).
Qed.
End MenuProperties.

Lemma render_build_sequence_witness :
  UIMenu.render (λ b, b) 42 scenarioD 7
  = ({| UIMenu.builder :=
          {| UIMenu.builtOptions := [("k1", "One"); ("k2", "Two")];
             UIMenu.builtGravity := Some UIMenu.end_ |};
        UIMenu.menu :=
          Some ({| UIMenu.builtOptions := [("k1", "One"); ("k2", "Two")];
                   UIMenu.builtGravity := Some UIMenu.end_ |}, 42%nat);
        UIMenu.gravity := Some UIMenu.end_;
        UIMenu.options := UIMenu.options scenarioD;
        UIMenu.selected := None |},
     [UIMenu.BuilderClear;
      UIMenu.BuilderAddOption "k1" "One";
      UIMenu.BuilderAddOption "k2" "Two";
      UIMenu.BuilderSetGravity UIMenu.end_;
      UIMenu.PropagateComponentEvent "Build";
      UIMenu.BuilderBuild;
      UIMenu.New {| UIMenu.builtOptions := [("k1", "One"); ("k2", "Two")];
                    UIMenu.builtGravity := Some UIMenu.end_ |} 42%nat;
      UIMenu.Render 42%nat 7%nat]) ∧
  length (List.filter isBuilderBuild
            (UIMenu.render (λ b, b) 42 scenarioD 7).2) = 1%nat ∧
  length (List.filter isNew
            (UIMenu.render (λ b, b) 42 scenarioD 7).2) = 1%nat.
Proof.
  refine (render_build_sequence (λ b, b) 42%nat scenarioD 7%nat _).
  simpl. discriminate.
Defined.

Lemma render_empty_options_witness :
  UIMenu.render (λ b, b) 42 builderOnlyMenu 7
  = ({| UIMenu.builder :=
          {| UIMenu.builtOptions := [("k9", "Nine")];
             UIMenu.builtGravity := Some UIMenu.start |};
        UIMenu.menu :=
          Some ({| UIMenu.builtOptions := [("k9", "Nine")];
                   UIMenu.builtGravity := Some UIMenu.start |}, 42%nat);
        UIMenu.gravity := Some UIMenu.start;
        UIMenu.options := [];
        UIMenu.selected := None |},
     [UIMenu.BuilderSetGravity UIMenu.start;
      UIMenu.PropagateComponentEvent "Build";
      UIMenu.BuilderBuild;
      UIMenu.New {| UIMenu.builtOptions := [("k9", "Nine")];
                    UIMenu.builtGravity := Some UIMenu.start |} 42%nat;
      UIMenu.Render 42%nat 7%nat]).
Proof.
  refine (render_empty_options (λ b, b) 42%nat builderOnlyMenu 7%nat _).
  reflexivity.
Defined.

(** ** The scenarios of the specification *)

(** Scenario A: the views of A, B and C, in order. *)
Example scenario_A :
  adaptedObject <$> renderedChildren renderedA
  = [Some objA; Some objB; Some objC].
Proof. vm_compute. reflexivity. Qed.

(** Scenario B: the views of B and C. *)
Example scenario_B :
  adaptedObject
    <$> renderedChildren
          (worldOf scenarioB
             (onItemsChangeAsync (Some exampleAdapter) scenarioB))
  = [Some objB; Some objC].
Proof. vm_compute. reflexivity. Qed.

(** Scenario C: after the removal of B the views of A and C are the
    instances of scenario A, and the binding of B is deleted. *)
Example scenario_C :
  renderedChildren renderedC
  = filter (λ c, adaptedObject c ≠ Some objB) (renderedChildren renderedA) ∧
  contentMap renderedC !! keyOf objB = None ∧
  is_Some (contentMap renderedA !! keyOf objB).
Proof.
  split; [vm_compute; reflexivity|].
  split; [vm_compute; reflexivity|].
  eexists. vm_compute. reflexivity.
Qed.

(** Scenario E: a selection with key k2 bubbles from the built menu. *)
Example scenario_E :
  let e := UIMenu.MenuItemSelectedEvent
             {| name := "SelectMenuItem"; source := outsider |} "k2" in
  UIMenu.selected (UIMenu.childEventFilter scenarioD e).1 = Some "k2" ∧
  (UIMenu.childEventFilter scenarioD e).2 = Some e.
Proof. done. Qed.

(** * Further properties of the code *)

(** ** Reconciliation, for all values of the fields *)

Lemma visibleItems_effective c l :
  NoDup (managedId <$> l) →
  (firstIndex c < 0 → maxItemsGe0 (maxItems c) = false) →
  visibleItems c l = Ok (effectiveWindow l (firstIndex c) (maxItems c)).
Proof.
  intros Hnd Hneg. unfold effectiveWindow.
  destruct (Z.ltb_spec (firstIndex c) 0) as [Hlt|Hge].
  - rewrite (Hneg Hlt). unfold visibleItems. rewrite (Hneg Hlt).
    assert ((0 <=? firstIndex c) = false) as -> by (apply Z.leb_gt; lia).
    simpl. unfold windowSlice. by rewrite Z.max_r, drop_0 by lia.
  - rewrite Z.max_l by lia.
    set (c' := setWindow c (items c) (firstIndex c)
                 (if maxItemsGe0 (maxItems c) then maxItems c else None)).
    assert (visibleItems c l = visibleItems c' l) as ->.
    { unfold visibleItems, c'. simpl.
      destruct (maxItems c) as [m|]; simpl; [|done].
      destruct (0 <=? m) eqn:Hm; simpl; [by rewrite Hm|done]. }
    rewrite (visibleItems_window c' l Hnd); [done|done|].
    unfold c'. simpl. destruct (maxItems c) as [m|]; simpl; [|done].
    destruct (0 <=? m) eqn:Hm; [|done]. intros ? [= <-]. by apply Z.leb_le.
Qed.

Lemma onItemsChangeAsync_effective A w container l :
  wfWorld w →
  content (controller w) = Some container →
  items (controller w) = Some l →
  NoDup (managedId <$> l) →
  (firstIndex (controller w) < 0 →
   maxItemsGe0 (maxItems (controller w)) = false) →
  ∃ w' cs, onItemsChangeAsync (Some A) w = Ok w' ∧
           Reconciled w w' container
             (effectiveWindow l (firstIndex (controller w))
                (maxItems (controller w))) cs.
Proof.
  intros Hwf Hct Hl Hnd Hneg.
  eapply onItemsChangeAsync_main; eauto.
  - by apply visibleItems_effective.
  - by apply windowSlice_keys_NoDup.
Qed.

(** X1. Whatever the values of [firstIndex] and [maxItems], short of a
    negative [firstIndex] together with a [maxItems >= 0], the pass succeeds
    and renders the window in which a negative [firstIndex] counts as 0 and a
    negative [maxItems] as unset. *)
Theorem window_any_parameters A w container l :
  wfWorld w →
  content (controller w) = Some container →
  items (controller w) = Some l →
  NoDup (managedId <$> l) →
  (firstIndex (controller w) < 0 →
   maxItemsGe0 (maxItems (controller w)) = false) →
  ∃ w', onItemsChangeAsync (Some A) w = Ok w' ∧
        adaptedObject <$> renderedChildren w'
        = Some <$> effectiveWindow l (firstIndex (controller w))
                     (maxItems (controller w)).
Proof.
  intros Hwf Hct Hl Hnd Hneg.
  destruct (onItemsChangeAsync_effective A w container l)
    as (w' & cs & Hrun & Hrec); try done.
  exists w'. split; [done|].
  unfold renderedChildren. rewrite (rec_controller _ _ _ _ _ Hrec). simpl.
  apply (children_adapted _ _ _ _ (rec_wf _ _ _ _ _ Hrec)
           (rec_children _ _ _ _ _ Hrec)).
Qed.

Lemma window_any_parameters_witness :
  ∃ w', onItemsChangeAsync (Some exampleAdapter) negativeWorld = Ok w' ∧
        adaptedObject <$> renderedChildren w' = Some <$> [objA; objB; objC].
Proof.
  apply (window_any_parameters exampleAdapter negativeWorld exampleContainer
           [objA; objB; objC]).
  - apply wfMap_empty.
  - reflexivity.
  - reflexivity.
  - apply (bool_decide_unpack _). vm_compute. exact I.
  - reflexivity.
Defined.

(** When every item has a binding in the scratch copy, the loop constructs
    nothing and writes nothing. *)
Lemma reconcile_all_reused A its st :
  NoDup (keyOf <$> its) →
  (∀ item, item ∈ its → is_Some (created st !! keyOf item)) →
  map (foldl (reconcileItem A) st its) = map st ∧
  nextId (foldl (reconcileItem A) st its) = nextId st.
Proof.
  revert st. induction its as [|x its IH]; intros st Hnd Hall; [done|].
  rewrite fmap_cons in Hnd. apply NoDup_cons in Hnd as [Hx Hnd].
  cbn [foldl].
  destruct (Hall x) as [c Hc]; [left|].
  assert (reconcileItem A st x
          = {| map := map st;
               created := delete (keyOf x) (created st);
               components := components st ++ [c];
               nextId := nextId st |}) as Hstep.
  { unfold reconcileItem. by rewrite Hc. }
  rewrite Hstep.
  set (st' := {| map := map st;
                 created := delete (keyOf x) (created st);
                 components := components st ++ [c];
                 nextId := nextId st |}).
  destruct (IH st' Hnd) as [-> ->]; [|done].
  simpl. intros item Hitem. rewrite lookup_delete_ne.
  - apply Hall. by right.
  - intros Heq. apply Hx. rewrite Heq. apply list_elem_of_fmap. eauto.
Qed.

Lemma Forall2_functional {A B} (P : A → B → Prop) (l : list A)
    (k1 k2 : list B) :
  (∀ x y1 y2, P x y1 → P x y2 → y1 = y2) →
  Forall2 P l k1 → Forall2 P l k2 → k1 = k2.
Proof.
  intros Hfun H1. revert k2.
  induction H1 as [|x y l k1 Hxy _ IH]; intros k2 H2; inversion H2; subst.
  - done.
  - f_equal; eauto.
Qed.

(** X2. A pass is idempotent: run again on the world it produced, with no
    field assigned in between, it returns that world unchanged: no view is
    constructed, no binding is touched, the children stay the same
    instances. *)
Theorem pass_idempotent A w container l w' :
  wfWorld w →
  content (controller w) = Some container →
  items (controller w) = Some l →
  NoDup (managedId <$> l) →
  (firstIndex (controller w) < 0 →
   maxItemsGe0 (maxItems (controller w)) = false) →
  onItemsChangeAsync (Some A) w = Ok w' →
  onItemsChangeAsync (Some A) w' = Ok w'.
Proof.
  intros Hwf Hct Hl Hnd Hneg Hrun1.
  destruct (onItemsChangeAsync_effective A w container l)
    as (w1 & cs & Hrun & Hrec); try done.
  rewrite Hrun1 in Hrun. injection Hrun as <-.
  set (its := effectiveWindow l (firstIndex (controller w))
                (maxItems (controller w))) in *.
  pose proof (rec_controller _ _ _ _ _ Hrec) as Hctl.
  assert (NoDup (keyOf <$> its)) as Hkeys by by apply windowSlice_keys_NoDup.
  unfold onItemsChangeAsync. rewrite Hctl. simpl. rewrite Hl.
  assert (visibleItems (setContainerContent (controller w) container cs) l
          = Ok its) as ->.
  { unfold its.
    rewrite <- (visibleItems_effective (controller w) l Hnd Hneg). done. }
  simpl.
  set (st0 := {| map := contentMap w';
                 created := ManagedMap.toObject (contentMap w');
                 components := [];
                 nextId := nextManagedId w' |}).
  assert (∀ item, item ∈ its → is_Some (created st0 !! keyOf item)) as Hall.
  { intros item Hitem. simpl. unfold ManagedMap.toObject.
    apply elem_of_dom. rewrite (rec_dom _ _ _ _ _ Hrec).
    apply elem_of_list_to_set, list_elem_of_fmap. eauto. }
  destruct (reconcile_all_reused A its st0 Hkeys Hall) as [Hmap Hnext].
  assert (LoopInv st0) as Hinv0.
  { split; simpl; [apply (rec_wf _ _ _ _ _ Hrec)|done]. }
  destruct (reconcile_components A its st0 Hkeys Hinv0) as (cs2 & Hcs2 & Hall2).
  rewrite Hmap in Hall2. simpl in Hall2, Hcs2.
  assert (cs2 = cs) as ->.
  { eapply Forall2_functional; [|apply Hall2|apply (rec_children _ _ _ _ _ Hrec)].
    simpl. congruence. }
  assert (created (foldl (reconcileItem A) st0 its) = ∅) as Hempty.
  { apply map_eq. intros k. rewrite reconcile_created, lookup_empty.
    case_decide as Hk; [done|]. simpl. unfold ManagedMap.toObject.
    apply not_elem_of_dom. rewrite (rec_dom _ _ _ _ _ Hrec).
    by rewrite elem_of_list_to_set. }
  rewrite Hempty, Hcs2, Hmap, Hnext. simpl.
  unfold removeOld. rewrite map_fold_empty.
  destruct (rec_frame _ _ _ _ _ Hrec) as [Hwin Hcalls].
  destruct w' as [ctl m n win calls]. simpl in *. subst ctl.
  unfold ManagedList.replace, setContainerContent. simpl. done.
Qed.

Lemma pass_idempotent_witness :
  onItemsChangeAsync (Some exampleAdapter) renderedA = Ok renderedA.
Proof.
  apply (pass_idempotent exampleAdapter scenarioA exampleContainer
           [objA; objB; objC] renderedA).
  - apply wfMap_empty.
  - reflexivity.
  - reflexivity.
  - apply (bool_decide_unpack _). vm_compute. exact I.
  - simpl. lia.
  - vm_compute. reflexivity.
Defined.

Lemma filter_ext_elem {A} (P1 P2 : A → Prop) `{!∀ x, Decision (P1 x)}
    `{!∀ x, Decision (P2 x)} (l : list A) :
  (∀ x, x ∈ l → P1 x ↔ P2 x) → filter P1 l = filter P2 l.
Proof.
  induction l as [|x l IH]; intros Hiff; [done|].
  assert (filter P1 l = filter P2 l) as Hl.
  { apply IH. intros y Hy. apply Hiff. by right. }
  destruct (decide (P1 x)) as [H1|H1].
  - rewrite !filter_cons_True; [by rewrite Hl|by apply Hiff; [left|]|done].
  - rewrite !filter_cons_False; [done| |done].
    intros H2. apply H1. apply Hiff; [left|done].
Qed.

(** The loop allocates one identity per item without a binding. *)
Lemma reconcile_allocations A its st :
  NoDup (keyOf <$> its) →
  nextId (foldl (reconcileItem A) st its)
  = (nextId st + length (unbound (created st) its))%nat.
Proof.
  unfold unbound. revert st.
  induction its as [|x its IH]; intros st Hnd; cbn [foldl].
  - simpl. lia.
  - rewrite fmap_cons in Hnd. apply NoDup_cons in Hnd as [Hx Hnd].
    rewrite (IH _ Hnd). unfold reconcileItem.
    destruct (created st !! keyOf x) as [c|] eqn:Hc; simpl.
    + rewrite filter_cons_False by (rewrite Hc; done).
      f_equal. f_equal. apply filter_ext_elem. intros item Hitem.
      rewrite lookup_delete_ne; [done|].
      intros Heq. apply Hx. rewrite Heq. apply list_elem_of_fmap. eauto.
    + rewrite filter_cons_True by done. simpl. lia.
Qed.

(** X3. A pass constructs one view for each object of the window that has no
    binding in the map, and none for an object that has one: the allocator
    advances by the number of unbound objects of the window. *)
Theorem adapter_called_for_unbound A w container l w' :
  wfWorld w →
  content (controller w) = Some container →
  items (controller w) = Some l →
  NoDup (managedId <$> l) →
  (firstIndex (controller w) < 0 →
   maxItemsGe0 (maxItems (controller w)) = false) →
  onItemsChangeAsync (Some A) w = Ok w' →
  nextManagedId w'
  = (nextManagedId w
     + length (unbound (contentMap w)
                 (effectiveWindow l (firstIndex (controller w))
                    (maxItems (controller w)))))%nat.
Proof.
  intros Hwf Hct Hl Hnd Hneg. unfold onItemsChangeAsync.
  rewrite Hct, Hl, (visibleItems_effective _ _ Hnd Hneg). simpl.
  intros [= <-]. simpl. rewrite reconcile_allocations; [done|].
  by apply windowSlice_keys_NoDup.
Qed.

Lemma adapter_called_for_unbound_witness :
  nextManagedId renderedC
  = (nextManagedId scenarioC
     + length (unbound (contentMap scenarioC)
                 (effectiveWindow [objA; objC] 0 None)))%nat.
Proof.
  apply (adapter_called_for_unbound exampleAdapter scenarioC
           {| containerSelf := containerSelf exampleContainer;
              containerContent := renderedChildren renderedA |}
           [objA; objC] renderedC).
  - apply (reachable_wf (Some exampleAdapter)).
    apply reach_assign.
    apply (reach_itemsChange _ scenarioA); [|vm_compute; reflexivity].
    apply reach_assign, reach_new.
  - vm_compute. reflexivity.
  - reflexivity.
  - apply (bool_decide_unpack _). vm_compute. exact I.
  - simpl. lia.
  - vm_compute. reflexivity.
Defined.

Lemma bound_children_distinct (m : gmap string Component) n its cs :
  wfMap m n → NoDup (keyOf <$> its) →
  Forall2 (λ item c, m !! keyOf item = Some c) its cs →
  NoDup (componentId <$> cs).
Proof.
  intros Hwf Hnd Hall. revert Hnd.
  induction Hall as [|item c its cs Hc Hall IH]; intros Hnd.
  - constructor.
  - rewrite fmap_cons in Hnd. apply NoDup_cons in Hnd as [Hitem Hnd].
    rewrite fmap_cons. apply NoDup_cons. split; [|by apply IH].
    intros (c' & Hid & Hc')%list_elem_of_fmap.
    apply list_elem_of_lookup in Hc' as [i Hi].
    destruct (Forall2_lookup_r _ _ _ _ _ Hall Hi) as (item' & Hitem' & Hbound).
    apply Hitem. rewrite (wf_inj _ _ Hwf _ _ _ _ Hc Hbound Hid).
    apply list_elem_of_fmap. exists item'. split; [done|].
    by eapply list_elem_of_lookup_2.
Qed.

(** X4. After a pass the children of the container are pairwise distinct
    instances: no component is rendered twice. *)
Theorem children_distinct A w container l w' :
  wfWorld w →
  content (controller w) = Some container →
  items (controller w) = Some l →
  NoDup (managedId <$> l) →
  (firstIndex (controller w) < 0 →
   maxItemsGe0 (maxItems (controller w)) = false) →
  onItemsChangeAsync (Some A) w = Ok w' →
  NoDup (componentId <$> renderedChildren w').
Proof.
  intros Hwf Hct Hl Hnd Hneg Hrun1.
  destruct (onItemsChangeAsync_effective A w container l)
    as (w1 & cs & Hrun & Hrec); try done.
  rewrite Hrun1 in Hrun. injection Hrun as <-.
  unfold renderedChildren. rewrite (rec_controller _ _ _ _ _ Hrec). simpl.
  eapply bound_children_distinct.
  - apply (rec_wf _ _ _ _ _ Hrec).
  - by apply windowSlice_keys_NoDup.
  - apply (rec_children _ _ _ _ _ Hrec).
Qed.

Lemma children_distinct_witness :
  NoDup (componentId <$> renderedChildren renderedC).
Proof.
  apply (children_distinct exampleAdapter scenarioC
           {| containerSelf := containerSelf exampleContainer;
              containerContent := renderedChildren renderedA |}
           [objA; objC] renderedC).
  - apply (reachable_wf (Some exampleAdapter)).
    apply reach_assign.
    apply (reach_itemsChange _ scenarioA); [|vm_compute; reflexivity].
    apply reach_assign, reach_new.
  - vm_compute. reflexivity.
  - reflexivity.
  - apply (bool_decide_unpack _). vm_compute. exact I.
  - simpl. lia.
  - vm_compute. reflexivity.
Defined.

(** X5. With [firstIndex >= 0] the number of children after a pass is the
    number of objects from [firstIndex] on, capped by [maxItems] when it is
    [>= 0]: a pass never renders more than [maxItems] children. *)
Theorem children_count A w container l w' :
  wfWorld w →
  content (controller w) = Some container →
  items (controller w) = Some l →
  NoDup (managedId <$> l) →
  0 ≤ firstIndex (controller w) →
  onItemsChangeAsync (Some A) w = Ok w' →
  let rest := Z.max 0 (ManagedList.count l - firstIndex (controller w)) in
  ManagedList.count (renderedChildren w')
  = match maxItems (controller w) with
    | Some m => if 0 <=? m then Z.min m rest else rest
    | None => rest
    end.
Proof.
  intros Hwf Hct Hl Hnd Hfi Hrun1.
  destruct (onItemsChangeAsync_effective A w container l)
    as (w1 & cs & Hrun & Hrec); try done; [lia|].
  rewrite Hrun1 in Hrun. injection Hrun as <-.
  pose proof (Forall2_length _ _ _ (rec_children _ _ _ _ _ Hrec)) as Hlen.
  unfold renderedChildren. rewrite (rec_controller _ _ _ _ _ Hrec). simpl.
  unfold ManagedList.count. rewrite <- Hlen.
  unfold effectiveWindow, windowSlice. rewrite Z.max_l by lia.
  destruct (maxItems (controller w)) as [m|]; simpl.
  - destruct (Z.leb_spec 0 m).
    + rewrite length_take, length_drop. lia.
    + rewrite length_drop. lia.
  - rewrite length_drop. lia.
Qed.

Lemma children_count_witness :
  ManagedList.count
    (renderedChildren
       (worldOf scenarioB (onItemsChangeAsync (Some exampleAdapter) scenarioB)))
  = 2.
Proof.
  apply (children_count exampleAdapter scenarioB exampleContainer
           [objA; objB; objC; objD]).
  - apply wfMap_empty.
  - reflexivity.
  - reflexivity.
  - apply (bool_decide_unpack _). vm_compute. exact I.
  - simpl. lia.
  - vm_compute. reflexivity.
Defined.

(** X6. In every world a controller goes through, whatever is assigned to
    its fields and whichever handlers run, a component is bound in the map
    under one key only, is the view of the object of its key, and has an
    identity the allocator has handed out. *)
Theorem reachable_map_invariant Adapter w :
  reachable Adapter w →
  oneViewPerIdentity w ∧
  (∀ k c, contentMap w !! k = Some c →
     (componentId c < nextManagedId w)%nat).
Proof.
  intros Hreach. destruct (reachable_wf Adapter w Hreach) as [Hv Ha Hi].
  unfold oneViewPerIdentity. eauto.
Qed.

Lemma reachable_map_invariant_witness :
  oneViewPerIdentity clearedA ∧
  (∀ k c, contentMap clearedA !! k = Some c →
     (componentId c < nextManagedId clearedA)%nat).
Proof.
  apply (reachable_map_invariant (Some exampleAdapter) clearedA).
  apply (reach_itemsChange _ unsetA); [|vm_compute; reflexivity].
  apply reach_assign.
  apply (reach_itemsChange _ scenarioA); [|vm_compute; reflexivity].
  apply reach_assign, reach_new.
Defined.

(** X7. A pass, on any path, writes nothing but the children of the
    container and the map: [items], [firstIndex], [maxItems],
    [lastFocusedIndex] and [enableArrowKeyFocus] keep their values, the
    container stays the same component, no focus call is made, and the
    allocator never goes back. *)
Theorem pass_frame Adapter w w' :
  onItemsChangeAsync Adapter w = Ok w' →
  items (controller w') = items (controller w) ∧
  firstIndex (controller w') = firstIndex (controller w) ∧
  maxItems (controller w') = maxItems (controller w) ∧
  lastFocusedIndex (controller w') = lastFocusedIndex (controller w) ∧
  enableArrowKeyFocus (controller w') = enableArrowKeyFocus (controller w) ∧
  (containerSelf <$> content (controller w')
   = containerSelf <$> content (controller w)) ∧
  focusCalls w' = focusCalls w ∧
  window___list w' = window___list w ∧
  (nextManagedId w ≤ nextManagedId w')%nat.
Proof.
  unfold onItemsChangeAsync.
  destruct (content (controller w)) as [container|] eqn:Hct.
  2:{ intros [= <-]. rewrite Hct. repeat split; done. }
  destruct (items (controller w)) as [l|] eqn:Hl.
  2:{ intros [= <-]. simpl. rewrite Hl. repeat split; done. }
  destruct Adapter as [A|].
  2:{ intros [= <-]. simpl. rewrite Hl. repeat split; done. }
  destruct (visibleItems (controller w) l) as [its|]; simpl; [|done].
  intros [= <-]. simpl. rewrite Hl. repeat split; try done.
  apply (reconcile_nextId A its
           {| map := contentMap w;
              created := ManagedMap.toObject (contentMap w);
              components := [];
              nextId := nextManagedId w |}).
Qed.

Lemma pass_frame_witness :
  items (controller renderedC) = items (controller scenarioC) ∧
  firstIndex (controller renderedC) = firstIndex (controller scenarioC) ∧
  maxItems (controller renderedC) = maxItems (controller scenarioC) ∧
  lastFocusedIndex (controller renderedC)
  = lastFocusedIndex (controller scenarioC) ∧
  enableArrowKeyFocus (controller renderedC)
  = enableArrowKeyFocus (controller scenarioC) ∧
  (containerSelf <$> content (controller renderedC)
   = containerSelf <$> content (controller scenarioC)) ∧
  focusCalls renderedC = focusCalls scenarioC ∧
  window___list renderedC = window___list scenarioC ∧
  (nextManagedId scenarioC ≤ nextManagedId renderedC)%nat.
Proof.
  apply (pass_frame (Some exampleAdapter) scenarioC renderedC).
  vm_compute. reflexivity.
Defined.

(** ** Focus, further *)

(** X8. [getIndexOfComponent] returns -1 or the index, within the bounds of
    the children, of a child that is (by identity) a component of the parent
    chain of its argument whose parent is the container. *)
Theorem getIndexOfComponent_meaning c component :
  getIndexOfComponent c component = -1 ∨
  ∃ container s x child,
    content c = Some container ∧ component = Some s ∧
    x ∈ ancestorsOrSelf s ∧ isChildOf container x = true ∧
    0 ≤ getIndexOfComponent c component
      < ManagedList.count (containerContent container) ∧
    containerContent container
      !! Z.to_nat (getIndexOfComponent c component) = Some child ∧
    componentId child = componentId x.
Proof.
  unfold getIndexOfComponent.
  destruct (content c) as [container|]; [|by left].
  destruct component as [s|]; [|by left]. simpl.
  rewrite walkToChild_find.
  destruct (List.find _ _) as [x|] eqn:Hfind; [|by left].
  apply List.find_some in Hfind as [Hin Hchild].
  unfold ManagedList.indexOf.
  destruct (ManagedList.position _ _ _) as [i|] eqn:Hpos; [|by left].
  destruct (position_Some _ _ _ _ Hpos) as (child & Hi & Hid).
  right. exists container, s, x, child.
  rewrite Nat2Z.id. repeat split; try done.
  - by apply list_elem_of_In.
  - lia.
  - unfold ManagedList.count. apply lookup_lt_Some in Hi. lia.
Qed.

Lemma getIndexOfComponent_bounds c component :
  -1 ≤ getIndexOfComponent c component ∧
  ∀ container, content c = Some container →
    getIndexOfComponent c component
    < Z.max 0 (ManagedList.count (containerContent container)).
Proof.
  unfold getIndexOfComponent.
  destruct (content c) as [container|].
  2:{ split; [lia|done]. }
  assert (∀ r : Z, r = -1 →
            -1 ≤ r ∧ ∀ container0, Some container = Some container0 →
              r < Z.max 0 (ManagedList.count (containerContent container0)))
    as Hminus.
  { intros r -> . split; [lia|]. intros ? _. unfold ManagedList.count. lia. }
  destruct (component ≫= walkToChild container) as [x|]; [|by apply Hminus].
  unfold ManagedList.indexOf.
  destruct (ManagedList.position _ _ _) as [i|] eqn:Hpos; [|by apply Hminus].
  destruct (position_Some _ _ _ _ Hpos) as (child & Hi & _).
  apply lookup_lt_Some in Hi. split; [lia|].
  intros ? [= <-]. unfold ManagedList.count. lia.
Qed.

(** X9. A focus-in from a source other than the content leaves in
    [lastFocusedIndex] an index that is never negative and never beyond the
    last child, and changes no other field. *)
Theorem focus_in_index_in_range w e :
  isContent (controller w) (source e) = false →
  ∃ w', onFocusIn w e = Ok w' ∧
        0 ≤ lastFocusedIndex (controller w')
          ≤ Z.max 0 (ManagedList.count (renderedChildren w) - 1) ∧
        w' = setController w
               (setLastFocusedIndex (controller w)
                  (lastFocusedIndex (controller w'))).
Proof.
  intros Hsrc. unfold onFocusIn. rewrite Hsrc. simpl.
  eexists. split; [reflexivity|]. simpl. split; [|done].
  destruct (getIndexOfComponent_bounds (controller w) (Some (source e)))
    as [Hlo Hhi].
  unfold renderedChildren.
  destruct (content (controller w)) as [container|] eqn:Hct; simpl.
  - specialize (Hhi container eq_refl). lia.
  - unfold getIndexOfComponent in *. rewrite Hct. simpl. lia.
Qed.

Lemma focus_in_index_in_range_witness :
  ∃ w', onFocusIn attachedA {| name := "FocusIn"; source := outsider |} = Ok w' ∧
        0 ≤ lastFocusedIndex (controller w')
          ≤ Z.max 0 (ManagedList.count (renderedChildren attachedA) - 1) ∧
        w' = setController attachedA
               (setLastFocusedIndex (controller attachedA)
                  (lastFocusedIndex (controller w'))).
Proof.
  apply (focus_in_index_in_range attachedA
           {| name := "FocusIn"; source := outsider |}).
  reflexivity.
Defined.

(** X10. Index and child are a round trip: for children of distinct
    identities, [getIndexOfComponent] of the child at position [i] whose
    parent is the container is [i]. *)
Theorem getIndexOfComponent_of_child c container (i : nat) child :
  content c = Some container →
  NoDup (componentId <$> containerContent container) →
  containerContent container !! i = Some child →
  isChildOf container child = true →
  getIndexOfComponent c (Some child) = Z.of_nat i.
Proof.
  intros Hct Hnd Hi Hchild. unfold getIndexOfComponent. rewrite Hct. simpl.
  rewrite walkToChild_unfold. unfold isChildOf in Hchild.
  destruct (getParentComponent child) as [parent|]; [|done].
  rewrite Hchild. unfold ManagedList.indexOf.
  by rewrite (position_NoDup componentId _ i child Hnd Hi).
Qed.

Lemma getIndexOfComponent_of_child_witness :
  getIndexOfComponent (controller attachedA) (Some (attach exampleContainer
     (MkComponent 1003 (Some objC) true true None))) = 2.
Proof.
  apply (getIndexOfComponent_of_child (controller attachedA)
           {| containerSelf := containerSelf exampleContainer;
              containerContent :=
                attach exampleContainer <$> renderedChildren renderedA |}
           2%nat).
  - reflexivity.
  - apply (bool_decide_unpack _). vm_compute. exact I.
  - vm_compute. reflexivity.
  - reflexivity.
Defined.

(** The source of a component inside the container is not the container. *)
Lemma containing_not_content c container s child :
  content c = Some container →
  acyclic s → containingChild container s child →
  isContent c s = false.
Proof.
  intros Hct Hacyclic [Hin Hchild]. unfold isContent. rewrite Hct.
  apply Nat.eqb_neq. intros Heq. unfold isChildOf in Hchild.
  destruct (getParentComponent child) as [p'|] eqn:Hp'; [|done].
  apply Nat.eqb_eq in Hchild.
  pose proof (parent_in_tail s child p' Hin Hp') as Htail.
  unfold acyclic in Hacyclic. rewrite ancestorsOrSelf_unfold in Hacyclic, Htail.
  simpl in Hacyclic, Htail.
  apply NoDup_cons in Hacyclic as [Hs _]. apply Hs.
  rewrite Heq, <- Hchild. apply list_elem_of_fmap. eauto.
Qed.

(** X11. Focus-in and [restoreFocus] compose: once a component inside the
    child at position [i] has reported the focus, [restoreFocus] calls
    [requestFocus] on that child (when it has the method) and on no other
    component. *)
Theorem focus_in_then_restore w e container (i : nat) child :
  content (controller w) = Some container →
  NoDup (componentId <$> containerContent container) →
  containerContent container !! i = Some child →
  acyclic (source e) →
  containingChild container (source e) child →
  ∃ w1, onFocusIn w e = Ok w1 ∧
        lastFocusedIndex (controller w1) = Z.of_nat i ∧
        restoreFocus w1 = Ok (focusRestored w1 container child) ∧
        focusCalls (focusRestored w1 container child)
        = focusCalls w ++
          (if hasRequestFocus child then [RequestFocus child] else []).
Proof.
  intros Hct Hnd Hi Hacyclic Hchild.
  assert (getIndexOfComponent (controller w) (Some (source e)) = Z.of_nat i)
    as Hindex.
  { unfold getIndexOfComponent. rewrite Hct. simpl.
    rewrite walkToChild_find, (containingChild_find _ _ child) by done.
    unfold ManagedList.indexOf.
    by rewrite (position_NoDup componentId _ i child Hnd Hi). }
  unfold onFocusIn.
  rewrite (containing_not_content _ container _ child Hct Hacyclic Hchild).
  simpl. rewrite Hindex, Z.max_r by lia.
  eexists. split; [reflexivity|]. simpl. split; [done|].
  set (w1 := setController w (setLastFocusedIndex (controller w) (Z.of_nat i))).
  destruct (restoreFocus_run w1 container) as (child' & Hchild' & Hrun).
  { done. }
  { intros Hnil. by rewrite Hnil in Hi. }
  simpl in Hchild'. unfold clamp, ManagedList.count in Hchild'.
  pose proof (lookup_lt_Some _ _ _ Hi) as Hlt.
  assert ((Z.of_nat i <? 0) = false) as Hlo by (apply Z.ltb_ge; lia).
  assert ((Z.of_nat (length (containerContent container)) - 1 <? Z.of_nat i)
          = false) as Hhi by (apply Z.ltb_ge; lia).
  rewrite Hlo, Hhi, Nat2Z.id, Hi in Hchild'. injection Hchild' as <-.
  split; done.
Qed.

Lemma focus_in_then_restore_witness :
  ∃ w1, onFocusIn attachedA
          {| name := "FocusIn";
             source := MkComponent 3000 None true false
                         (Some (attach exampleContainer secondChild)) |}
        = Ok w1 ∧
        lastFocusedIndex (controller w1) = 1 ∧
        restoreFocus w1
        = Ok (focusRestored w1
                {| containerSelf := containerSelf exampleContainer;
                   containerContent :=
                     attach exampleContainer <$> renderedChildren renderedA |}
                (attach exampleContainer secondChild)) ∧
        focusCalls
          (focusRestored w1
             {| containerSelf := containerSelf exampleContainer;
                containerContent :=
                  attach exampleContainer <$> renderedChildren renderedA |}
             (attach exampleContainer secondChild))
        = focusCalls attachedA ++
          [RequestFocus (attach exampleContainer secondChild)].
Proof.
  apply (focus_in_then_restore attachedA
           {| name := "FocusIn";
              source := MkComponent 3000 None true false
                          (Some (attach exampleContainer secondChild)) |}
           {| containerSelf := containerSelf exampleContainer;
              containerContent :=
                attach exampleContainer <$> renderedChildren renderedA |}
           1%nat (attach exampleContainer secondChild)).
  - reflexivity.
  - apply (bool_decide_unpack _). vm_compute. exact I.
  - vm_compute. reflexivity.
  - apply (bool_decide_unpack _). vm_compute. exact I.
  - split.
    + simpl. apply elem_of_cons. right. apply elem_of_cons. left. reflexivity.
    + reflexivity.
Defined.

(** X12. The bounds of [restoreFocus]: with children, a [lastFocusedIndex]
    at or below 0 restores the focus to the first child, and one at or
    beyond the last index (as after the list has shrunk) to the last
    child. *)
Theorem restoreFocus_bounds w container first rest :
  content (controller w) = Some container →
  containerContent container = first :: rest →
  (lastFocusedIndex (controller w) ≤ 0 →
   restoreFocus w = Ok (focusRestored w container first)) ∧
  (ManagedList.count (containerContent container) - 1
   ≤ lastFocusedIndex (controller w) →
   restoreFocus w
   = Ok (focusRestored w container (default first (last rest)))).
Proof.
  intros Hct Hcs.
  destruct (restoreFocus_run w container) as (child & Hchild & Hrun);
    [done|by rewrite Hcs|].
  rewrite Hrun. rewrite Hcs in Hchild. unfold ManagedList.count in *.
  rewrite Hcs. simpl length in *. unfold clamp in Hchild.
  split; intros Hlfi.
  - destruct (Z.ltb_spec (lastFocusedIndex (controller w)) 0).
    + simpl in Hchild. by injection Hchild as <-.
    + assert (lastFocusedIndex (controller w) = 0) as H0 by lia.
      rewrite H0 in Hchild.
      destruct (Z.ltb_spec (Z.of_nat (S (length rest)) - 1) 0); [lia|].
      simpl in Hchild. by injection Hchild as <-.
  - assert (Z.to_nat (if lastFocusedIndex (controller w) <? 0 then 0
                      else if Z.of_nat (S (length rest)) - 1
                              <? lastFocusedIndex (controller w)
                           then Z.of_nat (S (length rest)) - 1
                           else lastFocusedIndex (controller w))
            = length rest) as Hidx.
    { destruct (Z.ltb_spec (lastFocusedIndex (controller w)) 0); [lia|].
      destruct (Z.ltb_spec (Z.of_nat (S (length rest)) - 1)
                  (lastFocusedIndex (controller w))); lia. }
    rewrite Hidx in Hchild.
    assert (last (first :: rest) = Some child) as Hlast.
    { rewrite last_lookup. simpl. done. }
    rewrite last_cons in Hlast.
    destruct (last rest); simpl; by injection Hlast as <-.
Qed.

Lemma restoreFocus_bounds_witness :
  (lastFocusedIndex (controller attachedA) ≤ 0 →
   restoreFocus attachedA
   = Ok (focusRestored attachedA
           {| containerSelf := containerSelf exampleContainer;
              containerContent :=
                attach exampleContainer <$> renderedChildren renderedA |}
           (attach exampleContainer
              (MkComponent 1001 (Some objA) true true None)))) ∧
  (ManagedList.count
     (containerContent
        {| containerSelf := containerSelf exampleContainer;
           containerContent :=
             attach exampleContainer <$> renderedChildren renderedA |}) - 1
   ≤ lastFocusedIndex (controller attachedA) →
   restoreFocus attachedA
   = Ok (focusRestored attachedA
           {| containerSelf := containerSelf exampleContainer;
              containerContent :=
                attach exampleContainer <$> renderedChildren renderedA |}
           (attach exampleContainer
              (MkComponent 1003 (Some objC) true true None)))).
Proof.
  refine (restoreFocus_bounds attachedA
           {| containerSelf := containerSelf exampleContainer;
              containerContent :=
                attach exampleContainer <$> renderedChildren renderedA |}
           (attach exampleContainer
              (MkComponent 1001 (Some objA) true true None))
           [attach exampleContainer secondChild;
            attach exampleContainer
              (MkComponent 1003 (Some objC) true true None)] _ _).
  - reflexivity.
  - vm_compute. reflexivity.
Defined.

(** ** Arrow keys, further *)

Lemma belowContent_elem c chain x :
  x ∈ belowContent c chain → x ∈ chain ∧ isContent c x = false.
Proof.
  induction chain as [|y chain IH]; simpl; [by intros H; inversion H|].
  destruct (isContent c y) eqn:Hy; [by intros H; inversion H|].
  intros [->|Hx]%elem_of_cons.
  - split; [left|done].
  - destruct (IH Hx). split; [by right|done].
Qed.

(** X13. The target of [_getListItemComponent] is the topmost [UIComponent]
    of the parent chain of the source below the content of the controller
    (below the root when the chain does not reach the content), and there is
    none when that part of the chain holds no [UIComponent]. *)
Theorem getListItemComponent_topmost c s :
  _getListItemComponent c (Some s)
  = last (List.filter isUIComponent (belowContent c (ancestorsOrSelf s))).
Proof.
  simpl. rewrite listItemLoop_spec. by destruct (last _).
Qed.

(** X14. A target of [_getListItemComponent] is a [UIComponent] of the
    parent chain of the source and is never the content of the controller
    itself. *)
Theorem getListItemComponent_sound c s target :
  _getListItemComponent c (Some s) = Some target →
  isUIComponent target = true ∧
  target ∈ ancestorsOrSelf s ∧
  isContent c target = false.
Proof.
  simpl. rewrite listItemLoop_spec.
  destruct (last _) as [t|] eqn:Hlast; [|done]. intros [= <-].
  apply last_Some in Hlast as [pre Hpre].
  assert (In t (List.filter isUIComponent
                  (belowContent c (ancestorsOrSelf s)))) as Hin.
  { rewrite Hpre. apply in_or_app. right. by left. }
  apply List.filter_In in Hin as [Hin Hui].
  apply list_elem_of_In, belowContent_elem in Hin as [Hchain Hct]. done.
Qed.

Lemma getListItemComponent_sound_witness :
  isUIComponent secondChild = true ∧
  secondChild ∈ ancestorsOrSelf innerLabel ∧
  isContent (controller renderedA) secondChild = false.
Proof.
  apply (getListItemComponent_sound (controller renderedA) innerLabel
           secondChild).
  reflexivity.
Defined.

(** X15. For a source inside the container, the arrow keys act on the list
    item that contains it: when the direct child of the container that
    contains the source is a [UIComponent], the up key adds the call
    [requestFocusPrevious] on that child, the down key the call
    [requestFocusNext] on it, and the handlers change nothing else. *)
Theorem arrow_keys_inside_item w e container child :
  enableArrowKeyFocus (controller w) = true →
  content (controller w) = Some container →
  acyclic (source e) →
  containingChild container (source e) child →
  isUIComponent child = true →
  onArrowUpKeyPress w e = focusCalled w (RequestFocusPrevious child) ∧
  onArrowDownKeyPress w e = focusCalled w (RequestFocusNext child) ∧
  focusCalls (onArrowUpKeyPress w e)
  = focusCalls w ++ [RequestFocusPrevious child] ∧
  focusCalls (onArrowDownKeyPress w e)
  = focusCalls w ++ [RequestFocusNext child].
Proof.
  intros Hen Hct Hacyclic Hchild Hui.
  destruct (arrow_keys_contained w e container child) as [-> ->]; done.
Qed.

Lemma arrow_keys_inside_item_witness :
  onArrowUpKeyPress renderedA {| name := "KeyPress"; source := innerLabel |}
  = focusCalled renderedA (RequestFocusPrevious secondChild) ∧
  onArrowDownKeyPress renderedA {| name := "KeyPress"; source := innerLabel |}
  = focusCalled renderedA (RequestFocusNext secondChild) ∧
  focusCalls
    (onArrowUpKeyPress renderedA {| name := "KeyPress"; source := innerLabel |})
  = focusCalls renderedA ++ [RequestFocusPrevious secondChild] ∧
  focusCalls
    (onArrowDownKeyPress renderedA
       {| name := "KeyPress"; source := innerLabel |})
  = focusCalls renderedA ++ [RequestFocusNext secondChild].
Proof.
  apply (arrow_keys_inside_item renderedA
           {| name := "KeyPress"; source := innerLabel |}
           {| containerSelf := containerSelf exampleContainer;
              containerContent := renderedChildren renderedA |} secondChild).
  - reflexivity.
  - vm_compute. reflexivity.
  - apply (bool_decide_unpack _). vm_compute. exact I.
  - split; [|reflexivity].
    simpl. apply elem_of_cons. right. apply elem_of_cons. left. reflexivity.
  - reflexivity.
Defined.

(** X16. The arrow keys do nothing when no [UIComponent] lies on the parent
    chain of the source below the content: in particular when the source is
    the content itself, as for a key pressed on the focused container. *)
Theorem arrow_keys_no_target w e :
  (∀ x, x ∈ belowContent (controller w) (ancestorsOrSelf (source e)) →
        isUIComponent x = false) →
  onArrowUpKeyPress w e = w ∧ onArrowDownKeyPress w e = w.
Proof.
  intros Hnone.
  assert (_getListItemComponent (controller w) (Some (source e)) = None) as Hno.
  { simpl. rewrite listItemLoop_spec.
    assert (List.filter isUIComponent
              (belowContent (controller w) (ancestorsOrSelf (source e)))
            = []) as ->; [|done].
    induction (belowContent _ _) as [|x chain IH]; [done|]. simpl.
    rewrite (Hnone x) by left. apply IH. intros y Hy. apply Hnone. by right. }
  unfold onArrowUpKeyPress, onArrowDownKeyPress. rewrite Hno.
  by destruct (enableArrowKeyFocus (controller w)).
Qed.

Lemma arrow_keys_no_target_witness :
  onArrowUpKeyPress renderedA
    {| name := "KeyPress"; source := containerSelf exampleContainer |}
  = renderedA ∧
  onArrowDownKeyPress renderedA
    {| name := "KeyPress"; source := containerSelf exampleContainer |}
  = renderedA.
Proof.
  apply (arrow_keys_no_target renderedA
           {| name := "KeyPress"; source := containerSelf exampleContainer |}).
  simpl. intros x Hx. inversion Hx.
Defined.

(** ** Menus, further *)

Section MenuFurther.
Context {B M : Type} `{!UIMenu.UIMenuBuilder B M}.

(** [render] in full, for a list of options empty or not. *)
Lemma render_calls (onBuild : B → B) (fresh : nat) (m : UIMenu.UIMenu B M)
    (callback : nat) :
  let b := onBuild
             (withGravity (UIMenu.gravity m)
                (match UIMenu.options m with
                 | [] => UIMenu.builder m
                 | _ => populated (UIMenu.options m) (UIMenu.builder m)
                 end)) in
  UIMenu.render onBuild fresh m callback
  = (rendered m b fresh,
     match UIMenu.options m with
     | [] => []
     | _ => UIMenu.BuilderClear :: addOptionCalls (UIMenu.options m)
     end ++ gravityCalls (UIMenu.gravity m)
     ++ buildCalls (UIMenu.build b) fresh callback).
Proof.
  unfold UIMenu.render, rendered, populated, withGravity, gravityCalls.
  destruct (UIMenu.options m) as [|o opts] eqn:Ho.
  - simpl. by destruct (UIMenu.gravity m).
  - cbn [length Nat.eqb negb]. rewrite addOptions_spec.
    destruct (UIMenu.gravity m); simpl; rewrite <- ?app_assoc; done.
Qed.

Lemma filter_addOptionCalls (f : UIMenu.Call M → bool)
    (opts : list UIMenu.MenuOption) :
  (∀ k t, f (UIMenu.BuilderAddOption k t) = false) →
  List.filter f (addOptionCalls opts) = [].
Proof.
  intros Hf. unfold addOptionCalls.
  induction opts as [|o opts IH]; [done|].
  rewrite fmap_cons. simpl. by rewrite Hf.
Qed.

(** X17. Whatever the options and the gravity, [render] calls [build()]
    once, after everything it tells the builder, constructs one instance, of
    the class [build()] returned, renders that instance last, makes it
    [menu], and leaves [options], [gravity] and [selected] as they are. *)
Theorem render_builds_once (onBuild : B → B) (fresh : nat)
    (m : UIMenu.UIMenu B M) (callback : nat) :
  let after := UIMenu.render onBuild fresh m callback in
  length (List.filter isBuilderBuild after.2) = 1%nat ∧
  length (List.filter isNew after.2) = 1%nat ∧
  (∃ told, after.2
           = told ++ buildCalls (UIMenu.build (UIMenu.builder after.1))
                       fresh callback ∧
           Forall (λ call, isBuilderBuild call = false ∧ isNew call = false)
                  told) ∧
  UIMenu.menu after.1 = Some (UIMenu.build (UIMenu.builder after.1), fresh) ∧
  UIMenu.options after.1 = UIMenu.options m ∧
  UIMenu.gravity after.1 = UIMenu.gravity m ∧
  UIMenu.selected after.1 = UIMenu.selected m.
Proof.
  cbv zeta. rewrite render_calls. cbn [fst snd].
  set (b := onBuild _).
  set (prefix := match UIMenu.options m with
                 | [] => []
                 | _ => UIMenu.BuilderClear :: addOptionCalls (UIMenu.options m)
                 end).
  assert (Forall (λ call, isBuilderBuild call = false ∧ isNew call = false)
                 (prefix ++ gravityCalls (UIMenu.gravity m))) as Htold.
  { apply Forall_app. split.
    - unfold prefix. destruct (UIMenu.options m) as [|o opts]; [constructor|].
      constructor; [done|]. unfold addOptionCalls.
      apply Forall_fmap, Forall_forall. done.
    - unfold gravityCalls. destruct (UIMenu.gravity m); repeat constructor. }
  assert (∀ f, (∀ call, isBuilderBuild call = false ∧ isNew call = false →
                        f call = false) →
               List.filter f (prefix ++ gravityCalls (UIMenu.gravity m)) = [])
    as Hnone.
  { intros f Hf. induction Htold as [|call told Hcall _ IH]; [done|].
    simpl. by rewrite (Hf call Hcall). }
  rewrite app_assoc.
  rewrite (List.filter_app isBuilderBuild), (List.filter_app isNew).
  rewrite !length_app, !Hnone by (intros ? [? ?]; done).
  repeat split; try done.
  exists (prefix ++ gravityCalls (UIMenu.gravity m)). done.
Qed.

(** X18. A menu new from its constructor has no options and no gravity:
    rendered at once, it tells the builder nothing before the "Build" event,
    and builds what the handlers of that event make of the builder the theme
    supplied. Without a builder in the theme the constructor raises. *)
Theorem new_menu_render (b : B) (onBuild : B → B) (fresh callback : nat) :
  UIMenu.newUIMenu (B:=B) (M:=M) None = Throw "[UIMenu] Menu builder not found" ∧
  ∃ m, UIMenu.newUIMenu (Some b) = Ok m ∧
       UIMenu.selected m = None ∧
       UIMenu.render onBuild fresh m callback
       = (rendered m (onBuild b) fresh,
          buildCalls (UIMenu.build (onBuild b)) fresh callback).
Proof. split; [done|]. eexists. split; [reflexivity|]. done. Qed.

Lemma bubbleAll_from (m : UIMenu.UIMenu B M) (out : list UIMenu.BubblingEvent)
    (es : list UIMenu.BubblingEvent) :
  (foldl bubble (m, out) es).2
  = out ++ List.filter UIMenu.instanceofUIComponentEvent es ∧
  UIMenu.selected (foldl bubble (m, out) es).1
  = from_option Some (UIMenu.selected m) (last (selectedKeys es)) ∧
  UIMenu.builder (foldl bubble (m, out) es).1 = UIMenu.builder m ∧
  UIMenu.menu (foldl bubble (m, out) es).1 = UIMenu.menu m ∧
  UIMenu.gravity (foldl bubble (m, out) es).1 = UIMenu.gravity m ∧
  UIMenu.options (foldl bubble (m, out) es).1 = UIMenu.options m.
Proof.
  revert m out. induction es as [|e es IH]; intros m out.
  - simpl. by rewrite app_nil_r.
  - cbn [foldl].
    assert (bubble (m, out) e
            = ((UIMenu.childEventFilter m e).1,
               out ++ option_list (UIMenu.childEventFilter m e).2)) as ->
      by done.
    destruct (IH (UIMenu.childEventFilter m e).1
                (out ++ option_list (UIMenu.childEventFilter m e).2))
      as (-> & -> & -> & -> & -> & ->).
    destruct e as [n|ev|ev k]; simpl.
    + by rewrite app_nil_r.
    + by rewrite <- app_assoc.
    + rewrite <- app_assoc. unfold selectedKeys. simpl.
      rewrite last_cons. split; [done|]. by destruct (last _).
Qed.

(** X19. Over any sequence of events bubbling up from the child, the menu
    emits again exactly the component events, in order, and drops the rest;
    [selected] ends as the key of the last menu-item-selected event of the
    sequence, or as it was when there is none; no other field changes. *)
Theorem bubbling_sequence (m : UIMenu.UIMenu B M)
    (es : list UIMenu.BubblingEvent) :
  (bubbleAll m es).2 = List.filter UIMenu.instanceofUIComponentEvent es ∧
  UIMenu.selected (bubbleAll m es).1
  = from_option Some (UIMenu.selected m) (last (selectedKeys es)) ∧
  UIMenu.builder (bubbleAll m es).1 = UIMenu.builder m ∧
  UIMenu.menu (bubbleAll m es).1 = UIMenu.menu m ∧
  UIMenu.gravity (bubbleAll m es).1 = UIMenu.gravity m ∧
  UIMenu.options (bubbleAll m es).1 = UIMenu.options m.
Proof. apply (bubbleAll_from m [] es). Qed.
End MenuFurther.

(** ** Reconciliation: new views and reordering *)

Lemma onItemsChangeAsync_run A w container l its :
  content (controller w) = Some container →
  items (controller w) = Some l →
  visibleItems (controller w) l = Ok its →
  onItemsChangeAsync (Some A) w = Ok (passResult A w container its).
Proof.
  intros Hct Hl Hits. unfold onItemsChangeAsync. rewrite Hct, Hl, Hits.
  reflexivity.
Qed.

(** An item without a binding gets a view constructed by the adapter, with
    an identity taken from the allocator during the loop. *)
Lemma reconcile_new A its st item :
  NoDup (keyOf <$> its) → item ∈ its →
  created st !! keyOf item = None →
  ∃ n, (nextId st ≤ n < nextId (foldl (reconcileItem A) st its))%nat ∧
       map (foldl (reconcileItem A) st its) !! keyOf item
       = Some (newAdapter A item n).
Proof.
  revert st. induction its as [|x its IH]; intros st Hnd Hin Hnone.
  - inversion Hin.
  - rewrite fmap_cons in Hnd. apply NoDup_cons in Hnd as [Hx Hnd].
    cbn [foldl].
    pose proof (reconcile_nextId A its (reconcileItem A st x)) as Hmono.
    destruct (decide (x = item)) as [->|Hne].
    + exists (nextId st). rewrite reconcile_map_other by done.
      unfold reconcileItem in *. rewrite Hnone in *. simpl in *.
      split; [lia|]. unfold ManagedMap.set. apply lookup_insert_eq.
    + apply elem_of_cons in Hin as [?|Hin]; [congruence|].
      destruct (IH (reconcileItem A st x) Hnd Hin) as (n & Hn & Hmap).
      { unfold reconcileItem.
        destruct (created st !! keyOf x); simpl; [|done].
        rewrite lookup_delete_ne; [done|]. by intros ?%keyOf_inj. }
      exists n. split; [|done].
      pose proof (reconcileItem_nextId A st x). lia.
Qed.

(** X20. An object of the window that has no binding in the map, be it new
    or back after it had left the window, is rendered by a view the adapter
    constructs in that pass from the object, under an identity the allocator
    hands out in that pass: the instance is none of the components bound
    before. *)
Theorem unbound_gets_new_view A w container l w' item :
  wfWorld w →
  content (controller w) = Some container →
  items (controller w) = Some l →
  NoDup (managedId <$> l) →
  (firstIndex (controller w) < 0 →
   maxItemsGe0 (maxItems (controller w)) = false) →
  onItemsChangeAsync (Some A) w = Ok w' →
  item ∈ effectiveWindow l (firstIndex (controller w))
           (maxItems (controller w)) →
  contentMap w !! keyOf item = None →
  ∃ n, (nextManagedId w ≤ n < nextManagedId w')%nat ∧
       viewOf w' item = Some (newAdapter A item n) ∧
       contentMap w' !! keyOf item = Some (newAdapter A item n) ∧
       ∀ k c, contentMap w !! k = Some c → componentId c ≠ n.
Proof.
  intros Hwf Hct Hl Hnd Hneg Hrun1 Hin Hnone.
  destruct (onItemsChangeAsync_effective A w container l)
    as (w1 & cs & Hrun & Hrec); try done.
  rewrite Hrun1 in Hrun. injection Hrun as <-.
  set (its := effectiveWindow l (firstIndex (controller w))
                (maxItems (controller w))) in *.
  assert (NoDup (keyOf <$> its)) as Hkeys by by apply windowSlice_keys_NoDup.
  destruct (Reconciled_viewOf _ _ _ _ _ _ Hrec Hin) as (c & Hview & Hmap).
  set (st0 := {| map := contentMap w;
                 created := ManagedMap.toObject (contentMap w);
                 components := [];
                 nextId := nextManagedId w |}).
  destruct (reconcile_new A its st0 item Hkeys Hin Hnone) as (n & Hn & Hnew).
  assert (LoopInv st0) as Hinv0 by (split; simpl; done).
  pose proof (reconcile_inv A its st0 Hinv0) as [Hwf' Hsub'].
  assert (contentMap w' = removeOld (created (foldl (reconcileItem A) st0 its))
                            (map (foldl (reconcileItem A) st0 its))
          ∧ nextManagedId w' = nextId (foldl (reconcileItem A) st0 its))
    as [Hfinal Hnext].
  { unfold onItemsChangeAsync in Hrun1.
    rewrite Hct, Hl, (visibleItems_effective _ _ Hnd Hneg) in Hrun1.
    simpl in Hrun1. by injection Hrun1 as <-. }
  rewrite removeOld_difference in Hfinal by (done || apply Hwf').
  assert (c = newAdapter A item n) as ->.
  { rewrite Hfinal in Hmap. apply lookup_difference_Some in Hmap as [Hmap _].
    congruence. }
  exists n. rewrite Hnext. split; [done|]. split; [done|]. split; [done|].
  intros k c Hc Heq. pose proof (wf_alloc _ _ Hwf _ _ Hc) as Hlt.
  simpl in Hn. lia.
Qed.

Lemma unbound_gets_new_view_witness :
  ∃ n, (nextManagedId scenarioA ≤ n
        < nextManagedId renderedA)%nat ∧
       viewOf renderedA objB = Some (newAdapter exampleAdapter objB n) ∧
       contentMap renderedA !! keyOf objB
       = Some (newAdapter exampleAdapter objB n) ∧
       ∀ k c, contentMap scenarioA !! k = Some c → componentId c ≠ n.
Proof.
  apply (unbound_gets_new_view exampleAdapter scenarioA exampleContainer
           [objA; objB; objC] renderedA objB).
  - apply wfMap_empty.
  - reflexivity.
  - reflexivity.
  - apply (bool_decide_unpack _). vm_compute. exact I.
  - simpl. lia.
  - vm_compute. reflexivity.
  - apply (bool_decide_unpack _). vm_compute. exact I.
  - vm_compute. reflexivity.
Defined.

Lemma bound_children_omap (m : gmap string Component) its cs :
  Forall2 (λ item c, m !! keyOf item = Some c) its cs →
  cs = omap (λ item, m !! keyOf item) its.
Proof.
  induction 1 as [|item c its cs Hc _ IH]; [done|].
  cbn [omap list_omap]. rewrite Hc. by f_equal.
Qed.

(** X21. Reordering constructs and deletes nothing: when the window after
    an assignment to [items], [firstIndex] and [maxItems] holds the same
    objects as the window of the pass before, in any order, the next pass
    leaves the map and the allocator as they are, and the children are the
    same instances, rearranged. *)
Theorem reorder_reuses_all A w container l w1 l' f' m' :
  wfWorld w →
  content (controller w) = Some container →
  items (controller w) = Some l →
  NoDup (managedId <$> l) →
  (firstIndex (controller w) < 0 →
   maxItemsGe0 (maxItems (controller w)) = false) →
  onItemsChangeAsync (Some A) w = Ok w1 →
  NoDup (managedId <$> l') →
  (f' < 0 → maxItemsGe0 m' = false) →
  effectiveWindow l' f' m'
  ≡ₚ effectiveWindow l (firstIndex (controller w)) (maxItems (controller w)) →
  ∃ w2,
    onItemsChangeAsync (Some A)
      (setController w1 (setWindow (controller w1) (Some l') f' m')) = Ok w2 ∧
    contentMap w2 = contentMap w1 ∧
    nextManagedId w2 = nextManagedId w1 ∧
    renderedChildren w2 ≡ₚ renderedChildren w1.
Proof.
  intros Hwf Hct Hl Hnd Hneg Hrun1 Hnd' Hneg' Hperm.
  destruct (onItemsChangeAsync_effective A w container l)
    as (w1' & cs & Hrun & Hrec); try done.
  rewrite Hrun1 in Hrun. injection Hrun as <-.
  set (its := effectiveWindow l (firstIndex (controller w))
                (maxItems (controller w))) in *.
  set (its' := effectiveWindow l' f' m') in *.
  set (v := setController w1 (setWindow (controller w1) (Some l') f' m')).
  assert (content (controller v)
          = Some {| containerSelf := containerSelf container;
                    containerContent := cs |}) as Hctv.
  { simpl. by rewrite (rec_controller _ _ _ _ _ Hrec). }
  assert (NoDup (keyOf <$> its')) as Hkeys' by by apply windowSlice_keys_NoDup.
  destruct (onItemsChangeAsync_effective A v _ l' (rec_wf _ _ _ _ _ Hrec) Hctv)
    as (w2 & cs2 & Hrun2 & Hrec2); try done.
  change (effectiveWindow l' (firstIndex (controller v))
            (maxItems (controller v))) with its' in Hrec2.
  exists w2. split; [done|].
  set (st0 := {| map := contentMap v;
                 created := ManagedMap.toObject (contentMap v);
                 components := [];
                 nextId := nextManagedId v |}).
  assert (∀ item, item ∈ its' → is_Some (created st0 !! keyOf item)) as Hall.
  { intros item Hitem. simpl. unfold ManagedMap.toObject.
    apply elem_of_dom. rewrite (rec_dom _ _ _ _ _ Hrec).
    apply elem_of_list_to_set, list_elem_of_fmap. exists item.
    split; [done|]. by rewrite <- Hperm. }
  destruct (reconcile_all_reused A its' st0 Hkeys' Hall) as [Hmap Hnext].
  assert (created (foldl (reconcileItem A) st0 its') = ∅) as Hempty.
  { apply map_eq. intros k. rewrite reconcile_created, lookup_empty.
    case_decide as Hk; [done|]. simpl. unfold ManagedMap.toObject.
    apply not_elem_of_dom. rewrite (rec_dom _ _ _ _ _ Hrec).
    rewrite elem_of_list_to_set. intros (item & -> & Hitem)%list_elem_of_fmap.
    apply Hk, list_elem_of_fmap. exists item. split; [done|].
    by rewrite Hperm. }
  assert (contentMap w2 = contentMap w1 ∧ nextManagedId w2 = nextManagedId w1)
    as [Hm2 Hn2].
  { rewrite (onItemsChangeAsync_run A v _ l' its' Hctv eq_refl) in Hrun2.
    2:{ apply (visibleItems_effective (controller v) l' Hnd' Hneg'). }
    injection Hrun2 as <-. unfold passResult, loopResult. cbn [contentMap nextManagedId].
    fold st0. rewrite Hempty, Hmap, Hnext.
    unfold removeOld. by rewrite map_fold_empty. }
  split; [done|]. split; [done|].
  pose proof (bound_children_omap _ _ _ (rec_children _ _ _ _ _ Hrec)) as Hcs.
  pose proof (bound_children_omap _ _ _ (rec_children _ _ _ _ _ Hrec2)) as Hcs2.
  rewrite Hm2 in Hcs2.
  unfold renderedChildren.
  rewrite (rec_controller _ _ _ _ _ Hrec2), (rec_controller _ _ _ _ _ Hrec).
  simpl. rewrite Hcs, Hcs2. by apply omap_Permutation.
Qed.

Lemma reorder_reuses_all_witness :
  ∃ w2,
    onItemsChangeAsync (Some exampleAdapter)
      (setController renderedA
         (setWindow (controller renderedA) (Some [objC; objA; objB]) 0 None))
    = Ok w2 ∧
    contentMap w2 = contentMap renderedA ∧
    nextManagedId w2 = nextManagedId renderedA ∧
    renderedChildren w2 ≡ₚ renderedChildren renderedA.
Proof.
  apply (reorder_reuses_all exampleAdapter scenarioA exampleContainer
           [objA; objB; objC] renderedA [objC; objA; objB] 0 None).
  - apply wfMap_empty.
  - reflexivity.
  - reflexivity.
  - apply (bool_decide_unpack _). vm_compute. exact I.
  - simpl. lia.
  - vm_compute. reflexivity.
  - apply (bool_decide_unpack _). vm_compute. exact I.
  - lia.
  - apply (bool_decide_unpack _). vm_compute. exact I.
Defined.
